(** * Instrument signature removal (ip_isr): a shallow embedding

    Pixel values of [ImageF] and [VarianceF] planes are modelled as exact
    rationals [Q]; mask planes ([MaskU]) as non-negative integers [Z].
    A pixel is addressed by its parent coordinates [(x, y)].  Python
    exceptions raised by the code, or by the afw calls it makes, are the
    error side of the [result] monad. *)

From Stdlib Require Import List String ZArith QArith Qround Lia Bool.
Import ListNotations.
Open Scope string_scope.
Open Scope Z_scope.

(* ------------------------------------------------------------------ *)
(** ** Exceptions and the result monad *)

Inductive PyExc :=
| LsstException (msg : string)
| LengthError                 (* afw: bounding boxes or dimensions disagree *)
| InvalidParameterError       (* afw: statistics over an image with no pixels *)
| NotFoundError (name : string) (* afw: unknown mask plane *)
| NameError (name : string)   (* Python: unbound global name *)
| ZeroDivisionError
| TypeError (msg : string)
| ValueError                  (* Python: bad literal for int(), or wrong unpack count *)
| AssertionError (msg : string)
| TypeMismatchError.          (* daf.base: property of another type *)

Inductive result (A : Type) :=
| Ok (a : A)
| Err (e : PyExc).
Arguments Ok {A} a.
Arguments Err {A} e.

Definition bind {A B} (c : result A) (k : A -> result B) : result B :=
  match c with Ok a => k a | Err e => Err e end.

Notation "x <- c ;; k" := (bind c (fun x => k))
  (at level 61, c at next level, right associativity).

(* ------------------------------------------------------------------ *)
(** ** Geometry: [afwGeom.Box2I] with inclusive corners *)

Definition pix : Type := (Z * Z)%type.

Record Box := mkBox { minX : Z; minY : Z; maxX : Z; maxY : Z }.

Definition zrange (lo hi : Z) : list Z :=
  map (fun i => lo + Z.of_nat i) (seq 0 (Z.to_nat (hi - lo + 1))).

(** Pixels of a box, row by row (the order afw iterates in). *)
Definition boxPixels (b : Box) : list pix :=
  flat_map (fun y => map (fun x => (x, y)) (zrange (minX b) (maxX b)))
           (zrange (minY b) (maxY b)).

Definition inBox (b : Box) (p : pix) : bool :=
  (minX b <=? fst p) && (fst p <=? maxX b) &&
  (minY b <=? snd p) && (snd p <=? maxY b).

Definition boxContains (outer inner : Box) : bool :=
  (minX outer <=? minX inner) && (maxX inner <=? maxX outer) &&
  (minY outer <=? minY inner) && (maxY inner <=? maxY outer).

Definition boxWidth (b : Box) : Z := maxX b - minX b + 1.
Definition boxHeight (b : Box) : Z := maxY b - minY b + 1.

(* ------------------------------------------------------------------ *)
(** ** [MaskedImageF] and [ExposureF] *)

(** The mask-plane dictionary maps a plane name to its bit index. *)
Definition MaskPlaneDict := list (string * nat).

Definition defaultMaskPlanes : MaskPlaneDict :=
  [("BAD", 0%nat); ("SAT", 1%nat); ("INTRP", 2%nat); ("CR", 3%nat);
   ("EDGE", 4%nat); ("DETECTED", 5%nat); ("DETECTED_NEGATIVE", 6%nat);
   ("SUSPECT", 7%nat)].

Record MaskedImage := mkMI {
  miBBox : Box;
  image : pix -> Q;
  mask : pix -> Z;
  variance : pix -> Q;
  maskPlanes : MaskPlaneDict
}.

Record Exposure := mkExposure { maskedImage : MaskedImage }.

Fixpoint lookupPlane (name : string) (d : MaskPlaneDict) : option nat :=
  match d with
  | [] => None
  | (k, i) :: d' => if String.eqb k name then Some i else lookupPlane name d'
  end.

(** [mask.getPlaneBitMask(name)] *)
Definition getPlaneBitMask (d : MaskPlaneDict) (name : string) : result Z :=
  match lookupPlane name d with
  | Some i => Ok (2 ^ Z.of_nat i)
  | None => Err (NotFoundError name)
  end.

(** Pixel values of the image plane over a box, as afw's statistics see them. *)
Definition imagePixels (mi : MaskedImage) (b : Box) : list Q :=
  map (image mi) (boxPixels b).

(** [mi -= c] for a scalar [c]: afw subtracts from the image plane only. *)
Definition subtractScalar (mi : MaskedImage) (c : Q) : MaskedImage :=
  {| miBBox := miBBox mi;
     image := fun p => if inBox (miBBox mi) p then (image mi p - c)%Q else image mi p;
     mask := mask mi;
     variance := variance mi;
     maskPlanes := maskPlanes mi |}.

(* ------------------------------------------------------------------ *)
(** ** Statistics ([afwMath.makeStatistics]) *)

Definition Qsum (xs : list Q) : Q := fold_right Qplus 0%Q xs.

(** [afwMath.MEAN]; afw refuses an image without pixels. *)
Definition mean (xs : list Q) : result Q :=
  match xs with
  | [] => Err InvalidParameterError
  | _ => Ok (Qsum xs / inject_Z (Z.of_nat (List.length xs)))%Q
  end.

Fixpoint insertQ (x : Q) (xs : list Q) : list Q :=
  match xs with
  | [] => [x]
  | y :: ys => if Qle_bool x y then x :: y :: ys else y :: insertQ x ys
  end.

Fixpoint sortQ (xs : list Q) : list Q :=
  match xs with [] => [] | x :: xs' => insertQ x (sortQ xs') end.

(** [afwMath.MEDIAN]: the middle value, or the average of the two middle
    values of an even count. *)
Definition median (xs : list Q) : result Q :=
  match xs with
  | [] => Err InvalidParameterError
  | _ =>
    let s := sortQ xs in
    let n := List.length xs in
    if Nat.even n
    then Ok ((nth (n / 2 - 1) s 0%Q + nth (n / 2) s 0%Q) / 2)%Q
    else Ok (nth (n / 2) s 0%Q)
  end.

(** Unbiased sample variance, and an iterated sigma clip standing in for
    [afwMath.MEANCLIP] (a value is kept while
    [(x - mean)^2 <= nSigma^2 * variance], up to [nIter] passes or until a
    pass removes nothing).  Squares are compared, so no square root is
    needed.  afw's first pass is centred on the median with half-width
    [3 * 0.741 * IQR] instead, so the two can differ; the results below that
    use [meanClip] hold whatever value it returns, or also hold for afw's
    statistic on the input they use. *)
Definition sampleVar (m : Q) (xs : list Q) : Q :=
  (Qsum (map (fun x => (x - m) * (x - m)) xs) /
   inject_Z (Z.of_nat (List.length xs) - 1))%Q.

Fixpoint clipLoop (nIter : nat) (nSigma : Q) (xs : list Q) : list Q :=
  match nIter with
  | O => xs
  | S k =>
    let m := (Qsum xs / inject_Z (Z.of_nat (List.length xs)))%Q in
    let v := sampleVar m xs in
    let kept := filter (fun x => Qle_bool ((x - m) * (x - m)) (nSigma * nSigma * v)) xs in
    if Nat.eqb (List.length kept) (List.length xs) then xs else clipLoop k nSigma kept
  end.

(** afw's defaults: three iterations at three sigma. *)
Definition meanClip (xs : list Q) : result Q :=
  match xs with
  | [] => Err InvalidParameterError
  | _ => mean (clipLoop 3 3 xs)
  end.

(* ------------------------------------------------------------------ *)
(** ** [overscanCorrection] (isr.py) *)

(** [afwImage.ImageF(image, overscanBBox, False)] is a view of the parent
    image, refused by afw when the box leaves the parent. *)
Definition overscanCorrection (exposure : Exposure) (overscanBBox : Box)
    (fittype : string) : result Exposure :=
  let mi := maskedImage exposure in
  if negb (boxContains (miBBox mi) overscanBBox) then Err LengthError else
  let overscanData := imagePixels mi overscanBBox in
  if String.eqb fittype "MEAN" then
    offset <- mean overscanData ;;
    Ok (mkExposure (subtractScalar mi offset))
  else if String.eqb fittype "MEDIAN" then
    offset <- median overscanData ;;
    Ok (mkExposure (subtractScalar mi offset))
  else if String.eqb fittype "POLY" then
    Err (LsstException ("overscanCorrection : " ++ fittype ++ " not implemented"))
  else
    Err (LsstException ("overscanCorrection : " ++ fittype ++ " an invalid overscan type")).

(* ------------------------------------------------------------------ *)
(** ** [flatCorrection] (isr.py) *)

(** Pixel of [rhs] that afw pairs with pixel [p] of [lhs]: same local
    offset from the respective origins. *)
Definition pairedPix (lhs rhs : Box) (p : pix) : pix :=
  (fst p - minX lhs + minX rhs, snd p - minY lhs + minY rhs).

(** [mi.scaledDivides(c, rhs)]: [mi /= c * rhs] pixel by pixel; the masks
    are OR-ed and the variance follows afw's quotient rule
    [var(a/b) = (va * b^2 + vb * a^2) / b^4] with [b = c * rhs],
    [vb = c^2 * rhs.variance].  afw refuses images of different sizes. *)
Definition scaledDivides (c : Q) (mi rhs : MaskedImage) : result MaskedImage :=
  let b := miBBox mi in
  let rb := miBBox rhs in
  if negb ((boxWidth b =? boxWidth rb) && (boxHeight b =? boxHeight rb))
  then Err LengthError
  else Ok {| miBBox := b;
             image := fun p =>
               if inBox b p then (image mi p / (c * image rhs (pairedPix b rb p)))%Q
               else image mi p;
             mask := fun p =>
               if inBox b p then Z.lor (mask mi p) (mask rhs (pairedPix b rb p))
               else mask mi p;
             variance := fun p =>
               if inBox b p then
                 let a := image mi p in
                 let bb := (c * image rhs (pairedPix b rb p))%Q in
                 let vb := (c * c * variance rhs (pairedPix b rb p))%Q in
                 ((variance mi p * (bb * bb) + vb * (a * a)) / (bb * bb * bb * bb))%Q
               else variance mi p;
             maskPlanes := maskPlanes mi |}.

(** The scaling selected by [scalingtype]. *)
Definition flatScaling (flat : Exposure) (scalingtype : string) (scaling : Q)
    : result Q :=
  let fimg := imagePixels (maskedImage flat) (miBBox (maskedImage flat)) in
  if String.eqb scalingtype "MEAN" then mean fimg
  else if String.eqb scalingtype "MEDIAN" then median fimg
  else if String.eqb scalingtype "USER" then Ok scaling
  else Err (LsstException ("flatCorrection : " ++ scalingtype ++ " not implemented")).

(** [1./flatscaling] raises [ZeroDivisionError] in Python when the scaling
    is zero. *)
Definition flatCorrection (exposure flat : Exposure) (scalingtype : string)
    (scaling : Q) : result Exposure :=
  flatscaling <- flatScaling flat scalingtype scaling ;;
  if Qeq_bool flatscaling 0 then Err ZeroDivisionError else
  mi' <- scaledDivides (1 / flatscaling) (maskedImage exposure) (maskedImage flat) ;;
  Ok (mkExposure mi').

(* ------------------------------------------------------------------ *)
(** ** [createPsf] and [interpolateDefectList] (isr.py) *)

(** Python's [int(x)] on a float truncates toward zero. *)
Definition pyInt (q : Q) : Z := Z.quot (Qnum q) (Zpos (Qden q)).

(** [afwDetection.createPsf('DoubleGaussian', ksize, ksize, sigma)]; the
    width argument [fwhm / (2 sqrt(2 ln 2))] is irrational, so the PSF keeps
    the [fwhm] it is derived from. *)
Record Psf := mkPsf { psfType : string; psfWidth : Z; psfHeight : Z; psfFwhm : Q }.

Definition createPsf (fwhm : Q) : Psf :=
  let ksize := 4 * pyInt fwhm + 1 in
  mkPsf "DoubleGaussian" ksize ksize fwhm.

(** A defect is its bounding box ([algorithms.Defect(bbox)]). *)
Definition Defect := Box.

(** The call made into [algorithms.interpolateOverDefects], which does the
    pixel work outside this repository. *)
Record InterpCall := mkInterpCall {
  icImage : MaskedImage; icPsf : Psf; icDefects : list Defect; icFallback : option Q }.

(** [interpolateDefectList]: the fallback, when not given, is
    [afwMath.makeStatistics(mi.getImage(), afwMath.MEANCLIP)] over the whole
    image plane. *)
Definition interpolateDefectList (exposure : Exposure) (defectList : list Defect)
    (fwhm : Q) (fallbackValue : option Q) : result InterpCall :=
  let mi := maskedImage exposure in
  let psf := createPsf fwhm in
  fallback <- match fallbackValue with
              | Some v => Ok v
              | None => meanClip (imagePixels mi (miBBox mi))
              end ;;
  Ok (mkInterpCall mi psf defectList (Some fallback)).

(* ------------------------------------------------------------------ *)
(** ** Footprints ([afwDetection.makeFootprintSet]) *)

Definition Footprint := list pix.

Definition pixEqb (p q : pix) : bool := (fst p =? fst q) && (snd p =? snd q).

(** afw merges pixels that touch by an edge or a corner. *)
Definition adjacent8 (p q : pix) : bool :=
  (Z.abs (fst p - fst q) <=? 1) && (Z.abs (snd p - snd q) <=? 1).

(** Grow [comp] by the pixels of [rest] that touch it, until stable. *)
Fixpoint growComponent (fuel : nat) (comp rest : list pix) : list pix * list pix :=
  match fuel with
  | O => (comp, rest)
  | S f =>
    let (near, far) := partition (fun q => existsb (adjacent8 q) comp) rest in
    match near with
    | [] => (comp, rest)
    | _ => growComponent f (app comp near) far
    end
  end.

Fixpoint components (fuel : nat) (pts : list pix) : list Footprint :=
  match fuel with
  | O => []
  | S f =>
    match pts with
    | [] => []
    | p :: rest =>
      let (comp, rest') := growComponent (List.length rest) [p] rest in
      comp :: components f rest'
    end
  end.

(** Footprints of the pixels of [b] at or above [threshold]
    ([Threshold(t)], polarity positive). *)
Definition makeFootprintSet (img : pix -> Q) (b : Box) (threshold : Q) : list Footprint :=
  let pts := filter (fun p => Qle_bool threshold (img p)) (boxPixels b) in
  components (List.length pts) pts.

Definition inFootprint (fp : Footprint) (p : pix) : bool := existsb (pixEqb p) fp.

(** Bounding box of a footprint ([fp.getBBox()]). *)
Definition footprintBBox (fp : Footprint) : Box :=
  let xs := map fst fp in
  let ys := map snd fp in
  mkBox (fold_right Z.min (hd 0 xs) xs) (fold_right Z.min (hd 0 ys) ys)
        (fold_right Z.max (hd 0 xs) xs) (fold_right Z.max (hd 0 ys) ys).

(** [afwDetection.footprintToBBoxList] (afw's Footprint.cc).  The footprint
    is drawn as 1s into an image of its bounding box, held here as the list
    [set] of pixels still at 1.  [std::find] along row [y] from column [x]
    over [n] columns, for a pixel that is set ([v = true]) or clear. *)
Fixpoint findInRow (set : Footprint) (v : bool) (x y : Z) (n : nat) : option Z :=
  match n with
  | O => None
  | S k => if Bool.eqb (inFootprint set (x, y)) v then Some x
           else findInRow set v (x + 1) y k
  end.

(** The first row from [y] (over [n] rows) holding a set pixel, and its
    first set pixel.  Rows below afw's [y0] are empty and stay so, so the
    scan may start at the bottom of the bounding box every time. *)
Fixpoint findFirstSet (set : Footprint) (bb : Box) (y : Z) (n : nat) : option (Z * Z) :=
  match n with
  | O => None
  | S k => match findInRow set true (minX bb) y (Z.to_nat (boxWidth bb)) with
           | Some x0 => Some (x0, y)
           | None => findFirstSet set bb (y + 1) k
           end
  end.

(** [std::fill(..., 0)] over columns [x0..x1] of row [y]. *)
Definition clearRun (set : Footprint) (x0 x1 y : Z) : Footprint :=
  filter (fun p => negb ((snd p =? y) && (x0 <=? fst p) && (fst p <=? x1))) set.

(** Extend the box upward from row [y] (over at most [n] rows) while no
    pixel of columns [x0..x1] is clear, clearing each row taken; returns
    the image left and the top row of the box. *)
Fixpoint extendUp (set : Footprint) (x0 x1 y : Z) (n : nat) : Footprint * Z :=
  match n with
  | O => (set, y - 1)
  | S k =>
    match findInRow set false x0 y (Z.to_nat (x1 - x0 + 1)) with
    | None => extendUp (clearRun set x0 x1 y) x0 x1 (y + 1) k
    | Some _ => (set, y - 1)
    end
  end.

(** One box per pass: the first set pixel [x0] of the lowest non-empty row,
    the run up to the pixel before the next clear one ([find(first, end, 0)
    - 1], or the end of the row), extended upward.  Every pass clears at
    least one pixel, so [length fp] passes empty the image. *)
Fixpoint bboxLoop (fuel : nat) (bb : Box) (set : Footprint) : list Box :=
  match fuel with
  | O => []
  | S f =>
    match findFirstSet set bb (minY bb) (Z.to_nat (boxHeight bb)) with
    | None => []
    | Some (x0, y) =>
      let x1 := match findInRow set false x0 y (Z.to_nat (maxX bb - x0 + 1)) with
                | Some x => x - 1
                | None => maxX bb
                end in
      let '(set', top) := extendUp (clearRun set x0 x1 y) x0 x1 (y + 1) (Z.to_nat (maxY bb - y)) in
      mkBox x0 y x1 top :: bboxLoop f bb set'
    end
  end.

Definition footprintToBBoxList (fp : Footprint) : list Box :=
  bboxLoop (List.length fp) (footprintBBox fp) fp.

(** [afwDetection.growFootprint(fp, n, False)]: the non-isotropic growth,
    by the Manhattan distance (each pixel grows to the diamond
    [|dx| + |dy| <= n]), kept inside the region the footprint was detected
    in. *)
Definition growFootprint (region : Box) (fp : Footprint) (n : Z) : Footprint :=
  let xs := map fst fp in
  let ys := map snd fp in
  let lo (l : list Z) := fold_right Z.min (hd 0 l) l in
  let hi (l : list Z) := fold_right Z.max (hd 0 l) l in
  let b := mkBox (Z.max (minX region) (lo xs - n)) (Z.max (minY region) (lo ys - n))
                 (Z.min (maxX region) (hi xs + n)) (Z.min (maxY region) (hi ys + n)) in
  filter (fun q => existsb (fun p => Z.abs (fst q - fst p) + Z.abs (snd q - snd p) <=? n) fp)
         (boxPixels b).

(** [afwDetection.setMaskFromFootprint(mask, fp, bitmask)]: OR [bitmask]
    into the mask at every footprint pixel. *)
Definition setMaskFromFootprint (m : pix -> Z) (fp : Footprint) (bitmask : Z) : pix -> Z :=
  fun p => if inFootprint fp p then Z.lor (m p) bitmask else m p.

Definition withMask (mi : MaskedImage) (m : pix -> Z) : MaskedImage :=
  {| miBBox := miBBox mi; image := image mi; mask := m;
     variance := variance mi; maskPlanes := maskPlanes mi |}.

(* ------------------------------------------------------------------ *)
(** ** [saturationDetection] (isr.py) *)

Fixpoint saturationLoop (mi : MaskedImage) (doMask : bool) (maskName : string)
    (fpList : list Footprint) : result (MaskedImage * list (list Box)) :=
  match fpList with
  | [] => Ok (mi, [])
  | fp :: fps =>
    mi1 <- (if doMask then
              bitmask <- getPlaneBitMask (maskPlanes mi) maskName ;;
              Ok (withMask mi (setMaskFromFootprint (mask mi) fp bitmask))
            else Ok mi) ;;
    r <- saturationLoop mi1 doMask maskName fps ;;
    Ok (fst r, footprintToBBoxList fp :: snd r)
  end.

Definition saturationDetection (exposure : Exposure) (saturation : Q)
    (doMask : bool) (maskName : string) : result (Exposure * list (list Box)) :=
  let mi := maskedImage exposure in
  let fpList := makeFootprintSet (image mi) (miBBox mi) saturation in
  r <- saturationLoop mi doMask maskName fpList ;;
  Ok (mkExposure (fst r), snd r).

(* ------------------------------------------------------------------ *)
(** ** [defectListFromMask] (isr.py) *)

Definition hasPlane (d : MaskPlaneDict) (name : string) : bool :=
  match lookupPlane name d with Some _ => true | None => false end.

(** [mask.addMaskPlane(name)]: the next free bit index. *)
Definition addMaskPlane (d : MaskPlaneDict) (name : string) : MaskPlaneDict :=
  app d [(name, S (fold_right Nat.max 0%nat (map snd d)))].

Definition defectListFromMask (exposure : Exposure) (growFootprints : Z)
    (maskName : string) : result (Exposure * list Defect) :=
  let mi := maskedImage exposure in
  bit <- getPlaneBitMask (maskPlanes mi) maskName ;;
  (* satmask &= bit; maskimg <<= satmask; threshold 0.5 *)
  let maskimg := fun p => inject_Z (Z.land (mask mi p) bit) in
  let fpList := makeFootprintSet maskimg (miBBox mi) (1 # 2) in
  let defects :=
    flat_map (fun fp =>
                let fpGrow := if 0 <? growFootprints
                              then growFootprint (miBBox mi) fp growFootprints
                              else fp in
                footprintToBBoxList fpGrow) fpList in
  let planes := if hasPlane (maskPlanes mi) "INTRP" then maskPlanes mi
                else addMaskPlane (maskPlanes mi) "INTRP" in
  Ok (mkExposure {| miBBox := miBBox mi; image := image mi; mask := mask mi;
                    variance := variance mi; maskPlanes := planes |}, defects).


(* ------------------------------------------------------------------ *)
(** ** [fringeCorrection] and [pupilCorrection] (isr.py) *)

Definition fringeCorrection {F : Type} (exposure : Exposure) (fringe : F) : result Exposure :=
  Err (LsstException ("ipIsr.fringCorrection" ++ " not implemented")).

(** The message is formatted from [stageName], which is bound nowhere in
    isr.py: evaluating it raises [NameError] before the intended exception
    is built. *)
Definition pupilCorrection {P : Type} (exposure : Exposure) (pupil : P) : result Exposure :=
  Err (NameError "stageName").

(* ------------------------------------------------------------------ *)
(** ** [IsrProvenance] (calibType.py) *)

Module Provenance.

(** Values stored in a [PropertyList]. *)
Inductive MdValue := MStr (s : string) | MInt (z : Z) | MNone.


(** A [PropertyList] (and a Python [dict] of keyword arguments): names in
    insertion order, each present once. *)
Definition PropertyList := list (string * MdValue).

Fixpoint plGet (k : string) (pl : PropertyList) : option MdValue :=
  match pl with
  | [] => None
  | (k', v) :: pl' => if String.eqb k' k then Some v else plGet k pl'
  end.

(** [pl[k] = v]: overwrite in place, or append a new name. *)
Fixpoint plSet (pl : PropertyList) (k : string) (v : MdValue) : PropertyList :=
  match pl with
  | [] => [(k, v)]
  | (k', v') :: pl' => if String.eqb k' k then (k', v) :: pl' else (k', v') :: plSet pl' k v
  end.

(** [pl.update(d)] *)
Definition plUpdate (pl d : PropertyList) : PropertyList :=
  fold_left (fun acc kv => plSet acc (fst kv) (snd kv)) d pl.

Definition plNames (pl : PropertyList) : list string := map fst pl.



(** A data id ([lsst.daf.butler.DataId]) as a dict. *)
Definition DataId := list (string * MdValue).

Record IsrProvenance := mkProvenance {
  detectorName : MdValue;
  detectorSerial : MdValue;
  detectorId : MdValue;
  metadata : PropertyList;
  instrument : MdValue;
  calibType : MdValue;
  dimensions : list string;         (* a Python set *)
  dataIdList : list DataId
}.

Definition OBSTYPE : string := "IsrProvenance".
Definition SCHEMA : string := "NO SCHEMA".
Definition VERSION : Z := 0.

(** [datetime.datetime.now()] as read by [updateMetadata(setDate=True)]. *)
Record Now := mkNow { nowIso : string; nowDateIso : string; nowTimeIso : string }.

Definition withMetadata (c : IsrProvenance) (md : PropertyList) : IsrProvenance :=
  {| detectorName := detectorName c; detectorSerial := detectorSerial c;
     detectorId := detectorId c; metadata := md; instrument := instrument c;
     calibType := calibType c; dimensions := dimensions c; dataIdList := dataIdList c |}.

(** [IsrCalib.setMetadata] *)
Definition setMetadata (c : IsrProvenance) (md : PropertyList) : IsrProvenance :=
  let md := plSet md "OBSTYPE" (MStr OBSTYPE) in
  let md := plSet md (OBSTYPE ++ "_SCHEMA") (MStr SCHEMA) in
  let md := plSet md (OBSTYPE ++ "_VERSION") (MInt VERSION) in
  withMetadata c md.

(** [IsrCalib.updateMetadata] *)
Definition baseUpdateMetadata (c : IsrProvenance) (setDate : bool) (now : Now)
    (kwargs : PropertyList) : IsrProvenance :=
  let md := plSet (metadata c) "DETECTOR" (detectorName c) in
  let md := plSet md "DETECTOR_SERIAL" (detectorSerial c) in
  let sup := if setDate
             then [("CALIBDATE", MStr (nowIso now));
                   ("CALIB_CREATION_DATE", MStr (nowDateIso now));
                   ("CALIB_CREATION_TIME", MStr (nowTimeIso now))]
             else [] in
  let sup := plUpdate sup kwargs in
  withMetadata c (plUpdate md sup).

(** [IsrProvenance.updateMetadata] *)
Definition updateMetadata (c : IsrProvenance) (setDate : bool) (now : Now)
    (kwargs : PropertyList) : IsrProvenance :=
  let kw := plSet kwargs "DETECTOR" (detectorName c) in
  let kw := plSet kw "DETECTOR_SERIAL" (detectorSerial c) in
  let kw := plSet kw "INSTRUME" (instrument c) in
  let kw := plSet kw "calibType" (calibType c) in
  baseUpdateMetadata c setDate now kw.

(** The call [c.updateMetadata(setDate=..., **kwargs)]: Python binds the
    keyword arguments against [def updateMetadata(self, setDate=False,
    **kwargs)] and refuses a name that is also a named parameter. *)
Definition callUpdateMetadata (c : IsrProvenance) (setDate : bool) (now : Now)
    (kwargs : PropertyList) : result IsrProvenance :=
  if existsb (String.eqb "self") (plNames kwargs) then
    Err (TypeError "updateMetadata() got multiple values for argument 'self'")
  else if existsb (String.eqb "setDate") (plNames kwargs) then
    Err (TypeError "updateMetadata() got multiple values for keyword argument 'setDate'")
  else Ok (updateMetadata c setDate now kwargs).

(** [IsrProvenance()]: the defaults of [IsrProvenance.__init__] and
    [IsrCalib.__init__] (which calls the overriding [updateMetadata]). *)
Definition newProvenance (now : Now) : IsrProvenance :=
  let c := {| detectorName := MNone; detectorSerial := MNone; detectorId := MNone;
              metadata := []; instrument := MStr "unknown"; calibType := MStr "unknown";
              dimensions := []; dataIdList := [] |} in
  let c := setMetadata c [] in
  updateMetadata c false now [].

(** The dictionary built by [toDict]. *)
Record ProvDict := mkProvDict {
  dMetadata : PropertyList;
  dDetectorName : MdValue;
  dDetectorSerial : MdValue;
  dInstrument : MdValue;
  dCalibType : MdValue;
  dDimensions : list string;
  dDataIdList : list DataId
}.

(** [IsrProvenance.toDict]: updates the object's own metadata first, so
    the object after the call is returned too. *)
Definition toDict (c : IsrProvenance) (now : Now) : IsrProvenance * ProvDict :=
  let c := updateMetadata c true now [] in
  (c, {| dMetadata := metadata c; dDetectorName := detectorName c;
         dDetectorSerial := detectorSerial c; dInstrument := instrument c;
         dCalibType := calibType c; dDimensions := dimensions c;
         dDataIdList := dataIdList c |}).

Fixpoint dedup (l : list string) : list string :=
  match l with
  | [] => []
  | x :: l' => if existsb (String.eqb x) l' then dedup l' else x :: dedup l'
  end.

(** [IsrProvenance.fromDict] *)
Definition fromDict (d : ProvDict) (now : Now) : result IsrProvenance :=
  let calib := newProvenance now in
  calib <- callUpdateMetadata calib false now (dMetadata d) ;;
  let calib := {| detectorName := dDetectorName d; detectorSerial := dDetectorSerial d;
                  detectorId := detectorId calib; metadata := metadata calib;
                  instrument := dInstrument d; calibType := dCalibType d;
                  dimensions := dedup (dDimensions d); dataIdList := dDataIdList d |} in
  Ok (updateMetadata calib false now []).





(** [calib.getMetadata()[k] = v]: callers may edit the returned list. *)
Definition setMetadataItem (c : IsrProvenance) (k : string) (v : MdValue) : IsrProvenance :=
  withMetadata c (plSet (metadata c) k v).

End Provenance.

(* ================================================================== *)
(** * Properties *)

(* ------------------------------------------------------------------ *)
(** ** Boxes *)

Lemma in_zrange (lo hi x : Z) : In x (zrange lo hi) <-> lo <= x <= hi.
Proof.
  unfold zrange. rewrite in_map_iff. split.
  - intros (i & <- & Hi). apply in_seq in Hi. lia.
  - intros H. exists (Z.to_nat (x - lo)). split; [lia|]. apply in_seq. lia.
Qed.

Lemma in_boxPixels (b : Box) (p : pix) : In p (boxPixels b) <-> inBox b p = true.
Proof.
  destruct p as [x y]. unfold boxPixels, inBox. simpl.
  rewrite in_flat_map. split.
  - intros (y' & Hy & Hx). apply in_map_iff in Hx as (x' & Heq & Hx').
    inversion Heq; subst. apply in_zrange in Hy. apply in_zrange in Hx'.
    repeat rewrite andb_true_iff. repeat rewrite Z.leb_le. lia.
  - intros H. repeat rewrite andb_true_iff in H. repeat rewrite Z.leb_le in H.
    exists y. split; [apply in_zrange; lia|].
    apply in_map_iff. exists x. split; [reflexivity|]. apply in_zrange. lia.
Qed.

Lemma boxPixels_nonempty (b : Box) :
  minX b <= maxX b -> minY b <= maxY b -> boxPixels b <> [].
Proof.
  intros Hx Hy Hnil.
  assert (H : In (minX b, minY b) (boxPixels b)).
  { apply in_boxPixels. unfold inBox. simpl.
    repeat rewrite andb_true_iff. repeat rewrite Z.leb_le. lia. }
  rewrite Hnil in H. destruct H.
Qed.

Lemma inBox_contains (outer inner : Box) (p : pix) :
  boxContains outer inner = true -> inBox inner p = true -> inBox outer p = true.
Proof.
  unfold boxContains, inBox. repeat rewrite andb_true_iff. repeat rewrite Z.leb_le. lia.
Qed.

(* ------------------------------------------------------------------ *)
(** ** Statistics of a constant list *)

Lemma Qsum_const (xs : list Q) (c : Q) :
  (forall x, In x xs -> x == c) ->
  Qsum xs == inject_Z (Z.of_nat (List.length xs)) * c.
Proof.
  induction xs as [|x xs IH]; intros H.
  - reflexivity.
  - change (Qsum (x :: xs)) with (x + Qsum xs)%Q.
    replace (Z.of_nat (List.length (x :: xs))) with (Z.of_nat (List.length xs) + 1)
      by (cbn [List.length]; lia).
    rewrite inject_Z_plus, (H x (or_introl eq_refl)),
      IH by (intros y Hy; apply H; right; exact Hy).
    ring.
Qed.

Lemma mean_const (xs : list Q) (c : Q) :
  xs <> [] -> (forall x, In x xs -> x == c) ->
  exists m, mean xs = Ok m /\ m == c.
Proof.
  intros Hne H. destruct xs as [|x0 xs0]; [congruence|].
  eexists. split; [reflexivity|].
  rewrite (Qsum_const _ c H).
  assert (Hn : ~ inject_Z (Z.of_nat (List.length (x0 :: xs0))) == 0).
  { rewrite inject_Z_injective with (b := 0%Z). simpl. lia. }
  field. exact Hn.
Qed.

Lemma in_insertQ (a x : Q) (xs : list Q) : In a (insertQ x xs) <-> x = a \/ In a xs.
Proof.
  induction xs as [|y ys IH]; simpl.
  - tauto.
  - destruct (Qle_bool x y); simpl; [tauto|]. rewrite IH. tauto.
Qed.

Lemma length_insertQ (x : Q) (xs : list Q) :
  List.length (insertQ x xs) = S (List.length xs).
Proof.
  induction xs as [|y ys IH]; simpl; [reflexivity|].
  destruct (Qle_bool x y); simpl; [reflexivity|]. rewrite IH. reflexivity.
Qed.

Lemma in_sortQ (a : Q) (xs : list Q) : In a (sortQ xs) <-> In a xs.
Proof.
  induction xs as [|x xs IH]; simpl; [tauto|]. rewrite in_insertQ, IH. tauto.
Qed.

Lemma length_sortQ (xs : list Q) : List.length (sortQ xs) = List.length xs.
Proof.
  induction xs as [|x xs IH]; simpl; [reflexivity|]. rewrite length_insertQ, IH. reflexivity.
Qed.

Lemma median_const (xs : list Q) (c : Q) :
  xs <> [] -> (forall x, In x xs -> x == c) ->
  exists m, median xs = Ok m /\ m == c.
Proof.
  intros Hne H. destruct xs as [|x0 xs0] eqn:Exs; [congruence|].
  rewrite <- Exs in *.
  assert (Hn : (0 < List.length xs)%nat) by (subst; simpl; lia).
  assert (Hnth : forall i, (i < List.length xs)%nat -> nth i (sortQ xs) 0%Q == c).
  { intros i Hi. apply H. apply (in_sortQ _ xs). apply nth_In.
    rewrite length_sortQ. exact Hi. }
  unfold median. rewrite Exs. rewrite <- Exs.
  destruct (Nat.even (List.length xs)) eqn:Ev; eexists; split; try reflexivity.
  - apply Nat.even_spec in Ev. destruct Ev as [k Hk].
    rewrite (Hnth (List.length xs / 2 - 1)%nat), (Hnth (List.length xs / 2)%nat).
    + field.
    + rewrite Hk, Nat.mul_comm, Nat.div_mul by lia. lia.
    + rewrite Hk, Nat.mul_comm, Nat.div_mul by lia. lia.
  - apply Hnth. apply Nat.div_lt; lia.
Qed.

(* ------------------------------------------------------------------ *)
(** ** Overscan correction *)

(** The planes of [testOverscanCorrectionY]: a 10x13 image at 10 whose rows
    10..12 (the overscan [[1:10,11:13]]) are at 2. *)
Definition overscanTestY : Exposure :=
  mkExposure (mkMI (mkBox 0 0 9 12) (fun p => if 10 <=? snd p then 2%Q else 10%Q)
                   (fun _ => 0) (fun _ => 1%Q) defaultMaskPlanes).
Definition overscanBoxY : Box := mkBox 0 10 9 12.
Definition dataBoxY : Box := mkBox 0 0 9 9.

(** The planes of [checkPolyOverscanCorrectionX]: overscan columns 10, 11,
    12 hold [2 + y - 0.5], [2 + y], [2 + y + 0.5] in row [y]. *)
Definition polyTestX : Exposure :=
  mkExposure (mkMI (mkBox 0 0 12 9)
                   (fun p => if 10 <=? fst p
                             then (inject_Z (2 + snd p) + inject_Z (fst p - 11) / 2)%Q
                             else 10%Q)
                   (fun _ => 0) (fun _ => 1%Q) defaultMaskPlanes).
Definition polyBoxX : Box := mkBox 10 0 12 9.

(** The fit families the spec lists for [overscanCorrection]. *)
Definition supportedFitTypes : list string :=
  ["MEAN"; "MEDIAN"; "MEDIAN_PER_ROW"; "POLY"; "CHEB"; "LEG";
   "NATURAL_SPLINE"; "CUBIC_SPLINE"; "AKIMA_SPLINE"].

Lemma in_imagePixels (mi : MaskedImage) (b : Box) (v : Q) :
  In v (imagePixels mi b) <-> exists p, inBox b p = true /\ image mi p = v.
Proof.
  unfold imagePixels. rewrite in_map_iff. split.
  - intros (p & Hv & Hp). exists p. split; [apply in_boxPixels|]; assumption.
  - intros (p & Hp & Hv). exists p. split; [|apply in_boxPixels]; assumption.
Qed.

Lemma imagePixels_nonempty (mi : MaskedImage) (b : Box) :
  minX b <= maxX b -> minY b <= maxY b -> imagePixels mi b <> [].
Proof.
  intros Hx Hy H. apply (boxPixels_nonempty b Hx Hy).
  unfold imagePixels in H. destruct (boxPixels b); [reflexivity|discriminate].
Qed.

(** Unfolding of [overscanCorrection] on an overscan box inside the image. *)
Lemma overscanCorrection_inside (e : Exposure) (ob : Box) (fittype : string) :
  boxContains (miBBox (maskedImage e)) ob = true ->
  overscanCorrection e ob fittype =
  (if String.eqb fittype "MEAN" then
     offset <- mean (imagePixels (maskedImage e) ob) ;;
     Ok (mkExposure (subtractScalar (maskedImage e) offset))
   else if String.eqb fittype "MEDIAN" then
     offset <- median (imagePixels (maskedImage e) ob) ;;
     Ok (mkExposure (subtractScalar (maskedImage e) offset))
   else if String.eqb fittype "POLY" then
     Err (LsstException ("overscanCorrection : " ++ fittype ++ " not implemented"))
   else
     Err (LsstException ("overscanCorrection : " ++ fittype ++ " an invalid overscan type"))).
Proof. intros H. unfold overscanCorrection. rewrite H. reflexivity. Qed.

(** C1: with a data region uniformly at [V] and an overscan region
    uniformly at [O], MEAN and MEDIAN overscan correction leave every data
    pixel at exactly [V - O]. *)
Theorem overscan_uniform_level_subtracted (e : Exposure) (ob dataBox : Box)
    (fittype : string) (V O : Q) :
  fittype = "MEAN" \/ fittype = "MEDIAN" ->
  boxContains (miBBox (maskedImage e)) ob = true ->
  minX ob <= maxX ob -> minY ob <= maxY ob ->
  boxContains (miBBox (maskedImage e)) dataBox = true ->
  (forall p, inBox ob p = true -> image (maskedImage e) p == O) ->
  (forall p, inBox dataBox p = true -> image (maskedImage e) p == V) ->
  exists e', overscanCorrection e ob fittype = Ok e' /\
    forall p, inBox dataBox p = true -> image (maskedImage e') p == V - O.
Proof.
  intros Hft Hc Hx Hy Hd HO HV.
  assert (Hall : forall x, In x (imagePixels (maskedImage e) ob) -> x == O).
  { intros x Hx'. apply in_imagePixels in Hx' as (p & Hp & <-). apply HO, Hp. }
  pose proof (imagePixels_nonempty (maskedImage e) ob Hx Hy) as Hne.
  rewrite overscanCorrection_inside by exact Hc.
  assert (Hsub : forall off, off == O ->
            forall p, inBox dataBox p = true ->
            image (subtractScalar (maskedImage e) off) p == V - O).
  { intros off Hoff p Hp. simpl. rewrite (inBox_contains _ _ _ Hd Hp).
    rewrite (HV p Hp), Hoff. reflexivity. }
  destruct Hft as [-> | ->]; simpl.
  - destruct (mean_const _ O Hne Hall) as (m & Hm & HmO). rewrite Hm. simpl.
    eexists. split; [reflexivity|]. apply Hsub, HmO.
  - destruct (median_const _ O Hne Hall) as (m & Hm & HmO). rewrite Hm. simpl.
    eexists. split; [reflexivity|]. apply Hsub, HmO.
Qed.

Lemma overscan_uniform_level_subtracted_witness :
  exists e', overscanCorrection overscanTestY overscanBoxY "MEDIAN" = Ok e' /\
    forall p, inBox dataBoxY p = true -> image (maskedImage e') p == 10 - 2.
Proof.
  apply (overscan_uniform_level_subtracted overscanTestY overscanBoxY dataBoxY
           "MEDIAN" 10 2).
  - right. reflexivity.
  - reflexivity.
  - simpl. lia.
  - simpl. lia.
  - reflexivity.
  - intros [x y] Hp. unfold inBox in Hp. simpl in Hp.
    repeat rewrite andb_true_iff in Hp. repeat rewrite Z.leb_le in Hp.
    simpl. replace (10 <=? y) with true by (symmetry; apply Z.leb_le; lia).
    reflexivity.
  - intros [x y] Hp. unfold inBox in Hp. simpl in Hp.
    repeat rewrite andb_true_iff in Hp. repeat rewrite Z.leb_le in Hp.
    simpl. replace (10 <=? y) with false by (symmetry; apply Z.leb_gt; lia).
    reflexivity.
Defined.

(** C2 (as stated): on the sequence [2 + y + {-0.5, 0, 0.5}] of
    [checkPolyOverscanCorrectionX], POLY, CHEB and LEG produce no corrected
    exposure at all. *)
Lemma overscan_poly_counterexample :
  (forall e', overscanCorrection polyTestX polyBoxX "POLY" <> Ok e') /\
  (forall e', overscanCorrection polyTestX polyBoxX "CHEB" <> Ok e') /\
  (forall e', overscanCorrection polyTestX polyBoxX "LEG" <> Ok e').
Proof. repeat split; intros e'; vm_compute; discriminate. Qed.

(** C2 (amended): [overscanCorrection] fits no polynomial.  POLY raises
    the "not implemented" [LsstException], CHEB and LEG the "invalid
    overscan type" one (after afw's bounding-box check). *)
Theorem overscan_poly_cheb_leg_raise (e : Exposure) (ob : Box) :
  let inside := boxContains (miBBox (maskedImage e)) ob in
  overscanCorrection e ob "POLY" =
    (if inside then Err (LsstException "overscanCorrection : POLY not implemented")
     else Err LengthError) /\
  overscanCorrection e ob "CHEB" =
    (if inside then Err (LsstException "overscanCorrection : CHEB an invalid overscan type")
     else Err LengthError) /\
  overscanCorrection e ob "LEG" =
    (if inside then Err (LsstException "overscanCorrection : LEG an invalid overscan type")
     else Err LengthError).
Proof.
  simpl. unfold overscanCorrection.
  destruct (boxContains (miBBox (maskedImage e)) ob); simpl; repeat split.
Qed.

(** C3: every fit type outside the supported list makes
    [overscanCorrection] raise the "invalid overscan type" [LsstException]
    (for an overscan box inside the image, so afw's view is built first). *)
Theorem overscan_unknown_fittype_raises (e : Exposure) (ob : Box) (fittype : string) :
  ~ In fittype supportedFitTypes ->
  boxContains (miBBox (maskedImage e)) ob = true ->
  overscanCorrection e ob fittype =
    Err (LsstException ("overscanCorrection : " ++ fittype ++ " an invalid overscan type")).
Proof.
  intros Hnot Hc. rewrite overscanCorrection_inside by exact Hc.
  assert (Hne : forall s, In s supportedFitTypes -> String.eqb fittype s = false).
  { intros s Hs. apply String.eqb_neq. intros ->. exact (Hnot Hs). }
  rewrite (Hne "MEAN"), (Hne "MEDIAN"), (Hne "POLY") by (simpl; tauto).
  reflexivity.
Qed.

Lemma overscan_unknown_fittype_raises_witness :
  ~ In "SPLINE" supportedFitTypes /\
  overscanCorrection overscanTestY overscanBoxY "SPLINE" =
    Err (LsstException "overscanCorrection : SPLINE an invalid overscan type").
Proof.
  assert (H : ~ In "SPLINE" supportedFitTypes).
  { simpl. intros H. repeat (destruct H as [H|H]; [discriminate|]). exact H. }
  split; [exact H|].
  apply (overscan_unknown_fittype_raises overscanTestY overscanBoxY "SPLINE" H).
  reflexivity.
Defined.

(** C4: a successful overscan correction subtracts one model value (the
    MEAN or MEDIAN of the overscan pixels) from every image pixel and
    leaves the mask and variance planes unchanged. *)
Theorem overscan_apply_frame (e e' : Exposure) (ob : Box) (fittype : string) :
  overscanCorrection e ob fittype = Ok e' ->
  exists offset,
    ((fittype = "MEAN" /\ mean (imagePixels (maskedImage e) ob) = Ok offset) \/
     (fittype = "MEDIAN" /\ median (imagePixels (maskedImage e) ob) = Ok offset)) /\
    miBBox (maskedImage e') = miBBox (maskedImage e) /\
    (forall p, inBox (miBBox (maskedImage e)) p = true ->
               image (maskedImage e') p = (image (maskedImage e) p - offset)%Q) /\
    (forall p, mask (maskedImage e') p = mask (maskedImage e) p) /\
    (forall p, variance (maskedImage e') p = variance (maskedImage e) p).
Proof.
  unfold overscanCorrection.
  destruct (boxContains (miBBox (maskedImage e)) ob); simpl; [|discriminate].
  destruct (String.eqb fittype "MEAN") eqn:Emean.
  - apply String.eqb_eq in Emean.
    destruct (mean (imagePixels (maskedImage e) ob)) as [m|] eqn:Em; simpl; [|discriminate].
    intros H. inversion H; subst. exists m. simpl.
    split; [left; split; reflexivity|].
    repeat split. intros p Hp. rewrite Hp. reflexivity.
  - destruct (String.eqb fittype "MEDIAN") eqn:Emed.
    + apply String.eqb_eq in Emed.
      destruct (median (imagePixels (maskedImage e) ob)) as [m|] eqn:Em; simpl; [|discriminate].
      intros H. inversion H; subst. exists m. simpl.
      split; [right; split; reflexivity|].
      repeat split. intros p Hp. rewrite Hp. reflexivity.
    + destruct (String.eqb fittype "POLY"); discriminate.
Qed.

Lemma overscan_apply_frame_witness :
  exists e', overscanCorrection overscanTestY overscanBoxY "MEAN" = Ok e' /\
  exists offset,
    (("MEAN" = "MEAN" /\ mean (imagePixels (maskedImage overscanTestY) overscanBoxY) = Ok offset) \/
     ("MEAN" = "MEDIAN" /\ median (imagePixels (maskedImage overscanTestY) overscanBoxY) = Ok offset)) /\
    miBBox (maskedImage e') = miBBox (maskedImage overscanTestY) /\
    (forall p, inBox (miBBox (maskedImage overscanTestY)) p = true ->
               image (maskedImage e') p = (image (maskedImage overscanTestY) p - offset)%Q) /\
    (forall p, mask (maskedImage e') p = mask (maskedImage overscanTestY) p) /\
    (forall p, variance (maskedImage e') p = variance (maskedImage overscanTestY) p).
Proof.
  eexists. split; [reflexivity|].
  apply (overscan_apply_frame overscanTestY _ overscanBoxY "MEAN").
  reflexivity.
Defined.

(* ------------------------------------------------------------------ *)
(** ** Flat correction *)

(** An 11x1 flat with ten pixels at 1 and one at 100, and a science image
    at 1 on the same box. *)
Definition flatTest : Exposure :=
  mkExposure (mkMI (mkBox 0 0 10 0) (fun p => if fst p =? 10 then 100%Q else 1%Q)
                   (fun _ => 0) (fun _ => 1%Q) defaultMaskPlanes).
Definition scienceTest : Exposure :=
  mkExposure (mkMI (mkBox 0 0 10 0) (fun _ => 1%Q) (fun _ => 0) (fun _ => 1%Q)
                   defaultMaskPlanes).

(** C5 (as stated): with mode MEAN the flat is not scaled by its clipped
    mean.  The flat's plain mean is 10 and the science pixel comes out as
    [1 / (1/10 * 1) = 10], which the claim's formula gives only for a
    scaling of 10.  A clipped mean of this flat is not 10: the outlier 100
    is removed by the clip of [meanClip] here (which gives 1), and by afw's
    median-centred MEANCLIP as well (median 1, interquartile range 0). *)
Lemma flat_scaling_counterexample :
  exists m c e',
    mean (imagePixels (maskedImage flatTest) (miBBox (maskedImage flatTest))) = Ok m /\
    m == 10 /\
    meanClip (imagePixels (maskedImage flatTest) (miBBox (maskedImage flatTest))) = Ok c /\
    c == 1 /\
    flatCorrection scienceTest flatTest "MEAN" 1 = Ok e' /\
    image (maskedImage e') (0, 0) == 10 /\
    forall c', ~ c' == 10 ->
      ~ (image (maskedImage e') (0, 0) ==
         image (maskedImage scienceTest) (0, 0) / ((1 / c') * image (maskedImage flatTest) (0, 0))).
Proof.
  assert (Hgen : forall x c', x == 10 -> ~ c' == 10 -> ~ x == 1 / ((1 / c') * 1)).
  { intros x c' Hx Hc' H. apply Hc'. rewrite Hx in H. destruct (Qeq_dec c' 0) as [Hz|Hz].
    - rewrite Hz in H. vm_compute in H. discriminate H.
    - rewrite H. field. exact Hz. }
  do 3 eexists. split; [vm_compute; reflexivity|]. split; [vm_compute; reflexivity|].
  split; [vm_compute; reflexivity|]. split; [vm_compute; reflexivity|]. split; [reflexivity|].
  split; [vm_compute; reflexivity|].
  intros c' Hc'. apply Hgen; [vm_compute; reflexivity|exact Hc'].
Qed.

(** C5 (amended): [flatCorrection] scales by the plain mean (MEAN), the
    plain median (MEDIAN) or the user value (USER); with a nonzero scaling
    [s] and a flat of the science image's size it divides every science
    pixel by [s^-1 * flat]; a zero scaling raises [ZeroDivisionError]; every
    other mode raises the "not implemented" [LsstException]. *)
Theorem flatCorrection_plain_scaling (e flat : Exposure) (mode : string) (userScale s : Q) :
  let fimg := imagePixels (maskedImage flat) (miBBox (maskedImage flat)) in
  let sb := miBBox (maskedImage e) in
  let fb := miBBox (maskedImage flat) in
  (mode = "MEAN" /\ mean fimg = Ok s) \/ (mode = "MEDIAN" /\ median fimg = Ok s) \/
  (mode = "USER" /\ s = userScale) ->
  (~ s == 0 -> boxWidth sb = boxWidth fb -> boxHeight sb = boxHeight fb ->
   exists e', flatCorrection e flat mode userScale = Ok e' /\
     forall p, inBox sb p = true ->
       image (maskedImage e') p =
       (image (maskedImage e) p / ((1 / s) * image (maskedImage flat) (pairedPix sb fb p)))%Q) /\
  (s == 0 -> flatCorrection e flat mode userScale = Err ZeroDivisionError) /\
  (forall other, other <> "MEAN" -> other <> "MEDIAN" -> other <> "USER" ->
     flatCorrection e flat other userScale =
       Err (LsstException ("flatCorrection : " ++ other ++ " not implemented"))).
Proof.
  intros fimg sb fb Hmode.
  assert (Hscal : flatScaling flat mode userScale = Ok s).
  { unfold flatScaling. fold fimg.
    destruct Hmode as [[-> H] | [[-> H] | [-> ->]]]; simpl; [exact H | exact H | reflexivity]. }
  split; [|split].
  - intros Hs Hw Hh. unfold flatCorrection. rewrite Hscal. simpl.
    replace (Qeq_bool s 0) with false
      by (symmetry; apply not_true_iff_false; intros H; apply Hs, Qeq_bool_eq, H).
    unfold scaledDivides. fold sb fb. rewrite Hw, Hh, !Z.eqb_refl. simpl.
    eexists. split; [reflexivity|]. intros p Hp. simpl. rewrite Hp. reflexivity.
  - intros Hs. unfold flatCorrection. rewrite Hscal. cbn [bind].
    rewrite (Qeq_eq_bool s 0 Hs). reflexivity.
  - intros other H1 H2 H3. unfold flatCorrection, flatScaling.
    apply String.eqb_neq in H1, H2, H3. rewrite H1, H2, H3. reflexivity.
Qed.

Lemma flatCorrection_plain_scaling_witness :
  (exists e', flatCorrection scienceTest flatTest "MEAN" 1 = Ok e' /\
     forall p, inBox (mkBox 0 0 10 0) p = true ->
       image (maskedImage e') p =
       (image (maskedImage scienceTest) p /
        ((1 / (110 # 11)) * image (maskedImage flatTest) (pairedPix (mkBox 0 0 10 0) (mkBox 0 0 10 0) p)))%Q) /\
  flatCorrection scienceTest flatTest "USER" 0 = Err ZeroDivisionError.
Proof.
  split.
  - apply (flatCorrection_plain_scaling scienceTest flatTest "MEAN" 1 (110 # 11)).
    + left. split; [reflexivity|]. vm_compute. reflexivity.
    + vm_compute. discriminate.
    + reflexivity.
    + reflexivity.
  - apply (flatCorrection_plain_scaling scienceTest flatTest "USER" 0 0).
    + right; right. split; reflexivity.
    + reflexivity.
Defined.

(* ------------------------------------------------------------------ *)
(** ** PSF size and interpolation fallback *)

(** A 2x2 image [10 10 / 20 20] whose pixel (1,1) is masked BAD and is the
    defect. *)
Definition defectTest : Exposure :=
  mkExposure (mkMI (mkBox 0 0 1 1) (fun p => if snd p =? 0 then 10%Q else 20%Q)
                   (fun p => if pixEqb p (1, 1) then 1 else 0) (fun _ => 1%Q)
                   defaultMaskPlanes).

(** The fallback the claim describes: the clipped mean over the image
    pixels outside every defect and without the BAD or SAT bit. *)
Definition claimedFallback (mi : MaskedImage) (defects : list Defect) : result Q :=
  bad <- getPlaneBitMask (maskPlanes mi) "BAD" ;;
  sat <- getPlaneBitMask (maskPlanes mi) "SAT" ;;
  let usable p := negb (existsb (fun d => inBox d p) defects) &&
                  (Z.land (mask mi p) (Z.lor bad sat) =? 0) in
  meanClip (map (image mi) (filter usable (boxPixels (miBBox mi)))).

Definition fallbackOf (r : result InterpCall) : option (option Q) :=
  match r with Ok c => Some (icFallback c) | Err _ => None end.

(** C6 (as stated): the fallback is not taken over the unmasked pixels
    only.  Without the BAD pixel the clipped mean is 40/3; the code passes
    15, the clipped mean of all four pixels. *)
Lemma fallback_counterexample :
  exists c v w,
    interpolateDefectList defectTest [mkBox 1 1 1 1] 2 None = Ok c /\
    icFallback c = Some v /\ v == 15 /\
    claimedFallback (maskedImage defectTest) [mkBox 1 1 1 1] = Ok w /\ w == 40 # 3 /\
    ~ v == w.
Proof.
  do 3 eexists.
  split; [reflexivity|]. split; [reflexivity|]. split; [vm_compute; reflexivity|].
  split; [vm_compute; reflexivity|]. split; [vm_compute; reflexivity|].
  vm_compute. discriminate.
Qed.

Lemma pyInt_floor (q : Q) : (0 <= q)%Q -> pyInt q = Qfloor q.
Proof.
  destruct q as [n d]. unfold Qle, pyInt, Qfloor. simpl. intros H.
  apply Z.quot_div_nonneg; lia.
Qed.

Lemma imagePixels_ext (mi1 mi2 : MaskedImage) (b : Box) :
  (forall p, inBox b p = true -> image mi1 p = image mi2 p) ->
  imagePixels mi1 b = imagePixels mi2 b.
Proof.
  intros H. unfold imagePixels. apply map_ext_in. intros p Hp.
  apply H, in_boxPixels, Hp.
Qed.

(** C6 (amended): for [fwhm >= 0] the kernel is [4 floor(fwhm) + 1] on a
    side; without a [fallbackValue] the fallback is computed once, as the
    clipped mean of all pixels of the image plane, and handed as the single
    fallback to [interpolateOverDefects].  It depends on the image plane
    only: neither the mask nor the defect list changes it. *)
Theorem interpolateDefectList_fallback (e : Exposure) (dl : list Defect) (fwhm : Q) :
  (0 <= fwhm)%Q ->
  psfWidth (createPsf fwhm) = 4 * Qfloor fwhm + 1 /\
  psfHeight (createPsf fwhm) = 4 * Qfloor fwhm + 1 /\
  (forall v, meanClip (imagePixels (maskedImage e) (miBBox (maskedImage e))) = Ok v ->
     interpolateDefectList e dl fwhm None =
       Ok (mkInterpCall (maskedImage e) (createPsf fwhm) dl (Some v))) /\
  (forall e2 dl2 fwhm2,
     miBBox (maskedImage e2) = miBBox (maskedImage e) ->
     (forall p, inBox (miBBox (maskedImage e)) p = true ->
                image (maskedImage e2) p = image (maskedImage e) p) ->
     fallbackOf (interpolateDefectList e2 dl2 fwhm2 None) =
     fallbackOf (interpolateDefectList e dl fwhm None)).
Proof.
  intros Hf.
  split; [unfold createPsf; simpl; rewrite (pyInt_floor fwhm Hf); reflexivity|].
  split; [unfold createPsf; simpl; rewrite (pyInt_floor fwhm Hf); reflexivity|].
  split.
  - intros v Hv. unfold interpolateDefectList. rewrite Hv. reflexivity.
  - intros e2 dl2 fwhm2 Hb Himg. unfold interpolateDefectList. rewrite Hb.
    rewrite (imagePixels_ext (maskedImage e2) (maskedImage e) _ Himg).
    destruct (meanClip _); reflexivity.
Qed.

Lemma interpolateDefectList_fallback_witness :
  psfWidth (createPsf 2) = 4 * Qfloor 2 + 1 /\
  interpolateDefectList defectTest [mkBox 1 1 1 1] 2 None =
    Ok (mkInterpCall (maskedImage defectTest) (createPsf 2) [mkBox 1 1 1 1] (Some (60 # 4))).
Proof.
  destruct (interpolateDefectList_fallback defectTest [mkBox 1 1 1 1] 2) as (Hw & _ & Hcall & _).
  - vm_compute. discriminate.
  - split; [exact Hw|]. apply Hcall. vm_compute. reflexivity.
Defined.

(* ------------------------------------------------------------------ *)
(** ** Footprints *)

Lemma pixEqb_eq (p q : pix) : pixEqb p q = true <-> p = q.
Proof.
  destruct p as [x y], q as [x' y']. unfold pixEqb. simpl.
  rewrite andb_true_iff, !Z.eqb_eq. split; [intros [-> ->]; reflexivity|].
  intros H. inversion H. split; reflexivity.
Qed.

Lemma inFootprint_In (fp : Footprint) (p : pix) : inFootprint fp p = true <-> In p fp.
Proof.
  unfold inFootprint. rewrite existsb_exists. split.
  - intros (q & Hq & Heq). apply pixEqb_eq in Heq. subst. exact Hq.
  - intros Hp. exists p. split; [exact Hp|]. apply pixEqb_eq. reflexivity.
Qed.

Lemma growComponent_members (fuel : nat) (comp rest : list pix) (x : pix) :
  In x (fst (growComponent fuel comp rest)) \/ In x (snd (growComponent fuel comp rest)) <->
  In x comp \/ In x rest.
Proof.
  revert comp rest. induction fuel as [|f IH]; intros comp rest; simpl; [tauto|].
  rewrite partition_as_filter.
  destruct (filter (fun q => existsb (adjacent8 q) comp) rest) as [|n ns] eqn:Efil;
    simpl; [tauto|].
  rewrite IH, in_app_iff, <- Efil, !filter_In.
  destruct (existsb (adjacent8 x) comp); simpl; intuition.
Qed.

Lemma growComponent_rest_length (fuel : nat) (comp rest : list pix) :
  (List.length (snd (growComponent fuel comp rest)) <= List.length rest)%nat.
Proof.
  revert comp rest. induction fuel as [|f IH]; intros comp rest; simpl; [lia|].
  rewrite partition_as_filter.
  destruct (filter (fun q => existsb (adjacent8 q) comp) rest) as [|n ns]; simpl; [lia|].
  etransitivity; [apply IH|]. apply filter_length_le.
Qed.

(** The footprints cover exactly the thresholded pixels. *)
Lemma components_cover (fuel : nat) (pts : list pix) (x : pix) :
  (List.length pts <= fuel)%nat ->
  In x (List.concat (components fuel pts)) <-> In x pts.
Proof.
  revert pts. induction fuel as [|f IH]; intros pts Hlen.
  - destruct pts; simpl in *; [tauto|lia].
  - destruct pts as [|p rest]; simpl; [tauto|].
    pose proof (growComponent_members (List.length rest) [p] rest x) as Hm.
    pose proof (growComponent_rest_length (List.length rest) [p] rest) as Hl.
    destruct (growComponent (List.length rest) [p] rest) as [comp rest'].
    simpl in *. rewrite in_app_iff, IH by lia. rewrite Hm. tauto.
Qed.

Lemma in_makeFootprintSet (img : pix -> Q) (b : Box) (t : Q) (p : pix) :
  In p (List.concat (makeFootprintSet img b t)) <-> inBox b p = true /\ Qle_bool t (img p) = true.
Proof.
  unfold makeFootprintSet. rewrite components_cover by lia.
  rewrite filter_In, in_boxPixels. tauto.
Qed.

Lemma existsb_inFootprint (fps : list Footprint) (p : pix) :
  existsb (fun fp => inFootprint fp p) fps = true <-> In p (List.concat fps).
Proof.
  rewrite existsb_exists, in_concat. split.
  - intros (fp & Hfp & Hin). exists fp. split; [exact Hfp|]. apply inFootprint_In, Hin.
  - intros (fp & Hfp & Hin). exists fp. split; [exact Hfp|]. apply inFootprint_In, Hin.
Qed.

(** Masking every footprint in turn ORs the bit into each footprint pixel. *)
Lemma saturationLoop_mask (fps : list Footprint) (mi : MaskedImage) (name : string) (i : nat) :
  lookupPlane name (maskPlanes mi) = Some i ->
  exists r, saturationLoop mi true name fps = Ok r /\
    miBBox (fst r) = miBBox mi /\ image (fst r) = image mi /\
    forall p, mask (fst r) p =
      if existsb (fun fp => inFootprint fp p) fps
      then Z.lor (mask mi p) (2 ^ Z.of_nat i) else mask mi p.
Proof.
  revert mi. induction fps as [|fp fps IH]; intros mi Hl.
  - eexists. split; [reflexivity|]. simpl. repeat split.
  - simpl. unfold getPlaneBitMask. rewrite Hl. simpl.
    set (mi1 := withMask mi (setMaskFromFootprint (mask mi) fp (2 ^ Z.of_nat i))).
    destruct (IH mi1 Hl) as (r & Hr & Hb & Hi & Hm).
    rewrite Hr. simpl. eexists. split; [reflexivity|]. simpl.
    split; [exact Hb|]. split; [exact Hi|]. intros p. rewrite Hm.
    unfold mi1, withMask, setMaskFromFootprint. simpl.
    destruct (inFootprint fp p), (existsb (fun fp0 => inFootprint fp0 p) fps); simpl;
      try reflexivity.
    rewrite <- Z.lor_assoc, Z.lor_diag. reflexivity.
Qed.

(* ------------------------------------------------------------------ *)
(** ** Saturation detection *)

(** A 4x4 plane at 10 with a 2x2 block at 100 in its middle, mask clear. *)
Definition satTest : Exposure :=
  mkExposure (mkMI (mkBox 0 0 3 3)
                   (fun p => if inBox (mkBox 1 1 2 2) p then 100%Q else 10%Q)
                   (fun _ => 0) (fun _ => 1%Q) defaultMaskPlanes).

(** C7: on a plane whose mask starts clear, [saturationDetection] at level
    [T] (masking into SAT) leaves exactly the SAT bit on every pixel above
    [T] and the mask 0 on every pixel below [T]. *)
Theorem saturation_marks_exactly_overthreshold (e : Exposure) (T : Q) (i : nat) :
  lookupPlane "SAT" (maskPlanes (maskedImage e)) = Some i ->
  (forall p, inBox (miBBox (maskedImage e)) p = true -> mask (maskedImage e) p = 0) ->
  exists e' bboxes, saturationDetection e T true "SAT" = Ok (e', bboxes) /\
    forall p, inBox (miBBox (maskedImage e)) p = true ->
      ((T < image (maskedImage e) p)%Q -> mask (maskedImage e') p = 2 ^ Z.of_nat i) /\
      ((image (maskedImage e) p < T)%Q -> mask (maskedImage e') p = 0).
Proof.
  intros Hl Hz. set (mi := maskedImage e) in *.
  destruct (saturationLoop_mask (makeFootprintSet (image mi) (miBBox mi) T) mi "SAT" i Hl)
    as (r & Hr & Hb & Hi & Hm).
  exists (mkExposure (fst r)), (snd r). split.
  - unfold saturationDetection. fold mi. rewrite Hr. reflexivity.
  - intros p Hp. simpl. rewrite Hm, (Hz p Hp).
    destruct (existsb _ _) eqn:Eex.
    + apply existsb_inFootprint, in_makeFootprintSet in Eex as [_ Hle].
      apply Qle_bool_iff in Hle. split; [reflexivity|].
      intros Hlt. exfalso. apply (Qlt_not_le _ _ Hlt Hle).
    + split; [|reflexivity]. intros Hlt. exfalso.
      assert (Hin : In p (List.concat (makeFootprintSet (image mi) (miBBox mi) T))).
      { apply in_makeFootprintSet. split; [exact Hp|]. apply Qle_bool_iff, Qlt_le_weak, Hlt. }
      apply existsb_inFootprint in Hin. rewrite Hin in Eex. discriminate.
Qed.

Lemma saturation_marks_exactly_overthreshold_witness :
  exists e' bboxes, saturationDetection satTest 50 true "SAT" = Ok (e', bboxes) /\
    forall p, inBox (mkBox 0 0 3 3) p = true ->
      ((50 < image (maskedImage satTest) p)%Q -> mask (maskedImage e') p = 2) /\
      ((image (maskedImage satTest) p < 50)%Q -> mask (maskedImage e') p = 0).
Proof.
  apply (saturation_marks_exactly_overthreshold satTest 50 1).
  - reflexivity.
  - intros p _. reflexivity.
Defined.

(* ------------------------------------------------------------------ *)
(** ** Defects from a mask plane *)

Lemma findInRow_some (set : Footprint) (v : bool) (x y : Z) (n : nat) (z : Z) :
  findInRow set v x y n = Some z ->
  x <= z /\ inFootprint set (z, y) = v /\
  forall x', x <= x' < z -> inFootprint set (x', y) = negb v.
Proof.
  revert x. induction n as [|n IH]; intros x H; cbn [findInRow] in H; [discriminate|].
  destruct (Bool.eqb (inFootprint set (x, y)) v) eqn:E.
  - injection H as <-. apply Bool.eqb_prop in E. split; [lia|]. split; [exact E|]. lia.
  - destruct (IH (x + 1) H) as (Hz & Hv & Hb). split; [lia|]. split; [exact Hv|].
    intros x' Hx'. destruct (Z.eq_dec x' x) as [->|Hne]; [|apply Hb; lia].
    destruct (inFootprint set (x, y)), v; try discriminate E; reflexivity.
Qed.


Lemma findFirstSet_some (set : Footprint) (bb : Box) (y : Z) (n : nat) (x0 y0 : Z) :
  findFirstSet set bb y n = Some (x0, y0) -> inFootprint set (x0, y0) = true.
Proof.
  revert y. induction n as [|n IH]; intros y H; cbn [findFirstSet] in H; [discriminate|].
  destruct (findInRow set true (minX bb) y _) as [x|] eqn:E.
  - injection H as <- <-. apply (findInRow_some _ _ _ _ _ _ E).
  - exact (IH _ H).
Qed.










Lemma adjacent8_refl (p : pix) : adjacent8 p p = true.
Proof. unfold adjacent8. rewrite !Z.sub_diag. reflexivity. Qed.




Lemma pixEqb_neq (p q : pix) : p <> q -> pixEqb p q = false.
Proof.
  intros H. destruct (pixEqb p q) eqn:E; [|reflexivity]. apply pixEqb_eq in E. contradiction.
Qed.
















(* ------------------------------------------------------------------ *)
(** ** Corrections that are not implemented *)

(** C9: for every exposure, [fringeCorrection] raises the LsstException
    'ipIsr.fringCorrection not implemented', while [pupilCorrection] raises
    [NameError] on the unbound [stageName] instead of its not-implemented
    LsstException. *)
Theorem not_implemented_corrections_raise {F P : Type} (e : Exposure) (f : F) (pp : P) :
  fringeCorrection e f = Err (LsstException "ipIsr.fringCorrection not implemented") /\
  pupilCorrection e pp = Err (NameError "stageName").
Proof. split; reflexivity. Qed.

(* ------------------------------------------------------------------ *)
(** ** Provenance round trip *)

Module ProvenanceFacts.
Import Provenance.

(** A fresh provenance whose metadata holds the name [setDate]. *)
Definition setDateProvenance (now : Now) : IsrProvenance :=
  setMetadataItem (newProvenance now) "setDate" (MInt 1).

(** C10: [fromDict] does not rebuild what [toDict] wrote when the metadata
    holds the name [setDate]: [fromDict] passes the metadata as keyword
    arguments to [updateMetadata], which binds [setDate] twice and raises
    [TypeError], for every time stamp [now]. *)
Theorem roundtrip_fails_on_setDate_key (now : Now) :
  fromDict (snd (toDict (setDateProvenance now) now)) now =
  Err (TypeError "updateMetadata() got multiple values for keyword argument 'setDate'").
Proof. reflexivity. Qed.

End ProvenanceFacts.

(* ------------------------------------------------------------------ *)
(** ** [BBoxFromDatasec] (isr.py) *)

Definition chr (n : nat) : Ascii.ascii := Ascii.ascii_of_nat n.

Definition isSpaceChar (c : Ascii.ascii) : bool :=
  let n := Ascii.nat_of_ascii c in Nat.eqb n 32 || (Nat.leb 9 n && Nat.leb n 13).

Definition isDigitChar (c : Ascii.ascii) : bool :=
  let n := Ascii.nat_of_ascii c in Nat.leb 48 n && Nat.leb n 57.

Definition digitVal (c : Ascii.ascii) : Z := Z.of_nat (Ascii.nat_of_ascii c - 48).

Fixpoint skipWs (l : list Ascii.ascii) : list Ascii.ascii :=
  match l with
  | c :: r => if isSpaceChar c then skipWs r else l
  | [] => []
  end.

Fixpoint spanDigits (l : list Ascii.ascii) : list Ascii.ascii * list Ascii.ascii :=
  match l with
  | c :: r => if isDigitChar c then let (ds, rest) := spanDigits r in (c :: ds, rest) else ([], l)
  | [] => ([], [])
  end.

Definition digitsValue (ds : list Ascii.ascii) : Z :=
  fold_left (fun acc c => acc * 10 + digitVal c) ds 0.

(** Python 2 [int(s)] on a [str] ([PyInt_FromString] with base 10):
    white space, an optional sign, white space, at least one decimal digit,
    white space, and nothing else. *)
Definition pyIntOfChars (l : list Ascii.ascii) : result Z :=
  let l := skipWs l in
  let '(sign, l) := match l with
                    | c :: r => if Ascii.eqb c (chr 45) then (-1, r)
                                else if Ascii.eqb c (chr 43) then (1, r) else (1, l)
                    | [] => (1, l)
                    end in
  let '(ds, rest) := spanDigits (skipWs l) in
  match ds, skipWs rest with
  | _ :: _, [] => Ok (sign * digitsValue ds)
  | _, _ => Err ValueError
  end.

(** A separator of the pattern ['[\[\],:]']. *)
Definition isSep (c : Ascii.ascii) : bool :=
  existsb (Ascii.eqb c) [chr 91; chr 93; chr 44; chr 58].

(** [re.split] on a one-character class: the pieces between separators,
    empty ones included. *)
Fixpoint splitSep (l : list Ascii.ascii) : list (list Ascii.ascii) :=
  match l with
  | [] => [[]]
  | c :: r =>
    if isSep c then [] :: splitSep r
    else match splitSep r with
         | f :: fs => (c :: f) :: fs
         | [] => [[c]]
         end
  end.

(** [afwGeom.Box2I(minimum, maximum)] with its default [invert=True]:
    coordinates given in the wrong order are swapped. *)
Definition box2I (ax ay bx by_ : Z) : Box :=
  mkBox (Z.min ax bx) (Z.min ay by_) (Z.max ax bx) (Z.max ay by_).

(** [jnk,x1,x2,y1,y2,jnk = re.split(..., datasec.replace(' ',''))]: an
    unpack into six names; a FITS section is 1-based. *)
Definition BBoxFromDatasec (datasec : string) : result Box :=
  let l := filter (fun c => negb (Ascii.eqb c (chr 32))) (list_ascii_of_string datasec) in
  match splitSep l with
  | [_; x1; x2; y1; y2; _] =>
    vx1 <- pyIntOfChars x1 ;;
    vy1 <- pyIntOfChars y1 ;;
    vx2 <- pyIntOfChars x2 ;;
    vy2 <- pyIntOfChars y2 ;;
    Ok (box2I (vx1 - 1) (vy1 - 1) (vx2 - 1) (vy2 - 1))
  | _ => Err ValueError
  end.

(** Decimal text of an integer, as [str(z)] prints it. *)
Fixpoint digitsOf (fuel : nat) (n : Z) : list Ascii.ascii :=
  match fuel with
  | O => []
  | S f => if n <? 10 then [chr (48 + Z.to_nat n)]
           else app (digitsOf f (n / 10)) [chr (48 + Z.to_nat (n mod 10))]
  end.

Definition showZ (z : Z) : list Ascii.ascii :=
  if z <? 0 then chr 45 :: digitsOf (S (Z.to_nat (- z))) (- z)
  else digitsOf (S (Z.to_nat z)) z.

(** The FITS section [[x1:x2,y1:y2]] (1-based, inclusive) of a box. *)
Definition fitsSection (b : Box) : string :=
  string_of_list_ascii
    (chr 91 :: app (showZ (minX b + 1)) (chr 58 :: app (showZ (maxX b + 1))
      (chr 44 :: app (showZ (minY b + 1)) (chr 58 :: app (showZ (maxY b + 1)) [chr 93])))).


Lemma nat_of_chr (k : nat) : (k < 256)%nat -> Ascii.nat_of_ascii (chr k) = k.
Proof. apply Ascii.nat_ascii_embedding. Qed.

Lemma ascii_eqb_chr (c : Ascii.ascii) (k : nat) :
  (k < 256)%nat -> Ascii.eqb c (chr k) = Nat.eqb (Ascii.nat_of_ascii c) k.
Proof.
  intros Hk. destruct (Ascii.eqb c (chr k)) eqn:E; symmetry.
  - apply Ascii.eqb_eq in E. subst. rewrite nat_of_chr by exact Hk. apply Nat.eqb_refl.
  - apply Nat.eqb_neq. intros H. apply Ascii.eqb_neq in E. apply E.
    rewrite <- H. symmetry. apply Ascii.ascii_nat_embedding.
Qed.

(** Characters printed by [showZ]: a minus sign or a decimal digit. *)
Definition numChar (c : Ascii.ascii) : Prop :=
  Ascii.nat_of_ascii c = 45%nat \/ (48 <= Ascii.nat_of_ascii c <= 57)%nat.

Lemma numChar_tests (c : Ascii.ascii) :
  numChar c ->
  isSpaceChar c = false /\ isSep c = false /\ Ascii.eqb c (chr 32) = false.
Proof.
  unfold numChar, isSpaceChar, isSep. simpl existsb.
  rewrite !ascii_eqb_chr by lia. intros H.
  repeat split;
    repeat match goal with
    | |- context [Nat.eqb ?a ?b] => destruct (Nat.eqb_spec a b)
    | |- context [Nat.leb ?a ?b] => destruct (Nat.leb_spec a b)
    end; simpl; try reflexivity; lia.
Qed.

Lemma digitsOf_spec (fuel : nat) (n : Z) :
  0 <= n -> (Z.to_nat n < fuel)%nat ->
  digitsOf fuel n <> [] /\
  Forall (fun c => isDigitChar c = true) (digitsOf fuel n) /\
  digitsValue (digitsOf fuel n) = n.
Proof.
  revert n. induction fuel as [|f IH]; intros n Hn Hf; [lia|].
  cbn [digitsOf]. destruct (Z.ltb_spec n 10) as [Hlt|Hge].
  - split; [discriminate|]. split.
    + constructor; [|constructor]. unfold isDigitChar. rewrite nat_of_chr by lia.
      apply andb_true_iff. split; apply Nat.leb_le; lia.
    + unfold digitsValue, digitVal. cbn [fold_left]. rewrite nat_of_chr by lia.
      replace (48 + Z.to_nat n - 48)%nat with (Z.to_nat n) by lia. lia.
  - assert (Hq : 0 <= n / 10 < n) by (split; [apply Z.div_pos | apply Z.div_lt]; lia).
    destruct (IH (n / 10)) as (Hne & Hall & Hv); [lia|lia|].
    pose proof (Z.mod_pos_bound n 10) as Hm.
    split; [destruct (digitsOf f (n / 10)); [contradiction|discriminate]|]. split.
    + apply Forall_app. split; [exact Hall|]. constructor; [|constructor].
      unfold isDigitChar. rewrite nat_of_chr by lia.
      apply andb_true_iff. split; apply Nat.leb_le; lia.
    + unfold digitsValue in *. rewrite fold_left_app, Hv. cbn [fold_left]. unfold digitVal.
      rewrite nat_of_chr by lia.
      replace (48 + Z.to_nat (n mod 10) - 48)%nat with (Z.to_nat (n mod 10)) by lia.
      rewrite Z2Nat.id by lia. pose proof (Z.div_mod n 10). lia.
Qed.

Lemma spanDigits_all (l : list Ascii.ascii) :
  Forall (fun c => isDigitChar c = true) l -> spanDigits l = (l, []).
Proof.
  induction 1 as [|c l Hc _ IH]; [reflexivity|]. simpl. rewrite Hc, IH. reflexivity.
Qed.

Lemma digit_numChar (c : Ascii.ascii) : isDigitChar c = true -> numChar c.
Proof.
  unfold isDigitChar, numChar. rewrite andb_true_iff, !Nat.leb_le. lia.
Qed.

Lemma showZ_numChars (z : Z) : Forall numChar (showZ z).
Proof.
  unfold showZ. destruct (Z.ltb_spec z 0).
  - constructor.
    + left. apply nat_of_chr. lia.
    + destruct (digitsOf_spec (S (Z.to_nat (- z))) (- z)) as (_ & Hall & _); [lia|lia|].
      eapply Forall_impl; [|exact Hall]. intros c. apply digit_numChar.
  - destruct (digitsOf_spec (S (Z.to_nat z)) z) as (_ & Hall & _); [lia|lia|].
    eapply Forall_impl; [|exact Hall]. intros c. apply digit_numChar.
Qed.

Lemma pyIntOfChars_digits (ds : list Ascii.ascii) :
  ds <> [] -> Forall (fun c => isDigitChar c = true) ds ->
  pyIntOfChars ds = Ok (digitsValue ds) /\
  pyIntOfChars (chr 45 :: ds) = Ok (- digitsValue ds).
Proof.
  intros Hne Hall. destruct ds as [|c r]; [contradiction|].
  assert (Hc : isDigitChar c = true) by (inversion Hall; assumption).
  destruct (numChar_tests c (digit_numChar c Hc)) as (Hsp & _ & _).
  assert (H45 : Ascii.eqb c (chr 45) = false).
  { rewrite ascii_eqb_chr by lia. apply Nat.eqb_neq.
    unfold isDigitChar in Hc. rewrite andb_true_iff, !Nat.leb_le in Hc. lia. }
  assert (H43 : Ascii.eqb c (chr 43) = false).
  { rewrite ascii_eqb_chr by lia. apply Nat.eqb_neq.
    unfold isDigitChar in Hc. rewrite andb_true_iff, !Nat.leb_le in Hc. lia. }
  split.
  - unfold pyIntOfChars. cbn [skipWs]. rewrite Hsp. rewrite H45, H43. cbn [skipWs].
    rewrite Hsp. cbn [spanDigits]. rewrite Hc, (spanDigits_all r) by (inversion Hall; assumption).
    cbn [skipWs]. f_equal; lia.
  - unfold pyIntOfChars. cbn [skipWs].
    replace (isSpaceChar (chr 45)) with false by reflexivity.
    replace (Ascii.eqb (chr 45) (chr 45)) with true by reflexivity. cbn [skipWs].
    rewrite Hsp. cbn [spanDigits]. rewrite Hc, (spanDigits_all r) by (inversion Hall; assumption).
    cbn [skipWs]. f_equal; lia.
Qed.

Lemma pyIntOfChars_showZ (z : Z) : pyIntOfChars (showZ z) = Ok z.
Proof.
  unfold showZ. destruct (Z.ltb_spec z 0).
  - destruct (digitsOf_spec (S (Z.to_nat (- z))) (- z)) as (Hne & Hall & Hv); [lia|lia|].
    rewrite (proj2 (pyIntOfChars_digits _ Hne Hall)), Hv. f_equal. lia.
  - destruct (digitsOf_spec (S (Z.to_nat z)) z) as (Hne & Hall & Hv); [lia|lia|].
    rewrite (proj1 (pyIntOfChars_digits _ Hne Hall)), Hv. reflexivity.
Qed.

Lemma splitSep_app (a r : list Ascii.ascii) (c : Ascii.ascii) :
  Forall (fun x => isSep x = false) a -> isSep c = true ->
  splitSep (app a (c :: r)) = a :: splitSep r.
Proof.
  intros Ha Hc. induction Ha as [|x a Hx _ IH]; simpl; [rewrite Hc; reflexivity|].
  rewrite Hx, IH. reflexivity.
Qed.

Lemma length_splitSep (l : list Ascii.ascii) :
  List.length (splitSep l) = S (List.length (filter isSep l)).
Proof.
  induction l as [|c l IH]; [reflexivity|]. simpl.
  destruct (isSep c); simpl; [rewrite IH; reflexivity|].
  destruct (splitSep l); simpl in *; [discriminate|]. exact IH.
Qed.


Ltac forall_chars :=
  repeat match goal with
  | |- Forall _ (_ :: _) => apply Forall_cons
  | |- Forall _ (app _ _) => apply Forall_app; split
  | |- Forall _ [] => apply Forall_nil
  end; try assumption; try reflexivity.

Lemma splitSep_cons_sep (c : Ascii.ascii) (r : list Ascii.ascii) :
  isSep c = true -> splitSep (c :: r) = [] :: splitSep r.
Proof. intros H. simpl. rewrite H. reflexivity. Qed.

Lemma filter_nospace (l : list Ascii.ascii) :
  Forall (fun c => Ascii.eqb c (chr 32) = false) l ->
  filter (fun c => negb (Ascii.eqb c (chr 32))) l = l.
Proof. induction 1 as [|c l Hc _ IH]; [reflexivity|]. simpl. rewrite Hc, IH. reflexivity. Qed.

Lemma showZ_tests (z : Z) :
  Forall (fun c => Ascii.eqb c (chr 32) = false) (showZ z) /\
  Forall (fun c => isSep c = false) (showZ z).
Proof.
  pose proof (showZ_numChars z) as H. split; eapply Forall_impl; try exact H;
    intros c Hc; apply numChar_tests in Hc; tauto.
Qed.

Lemma filter_isSep_nospace (l : list Ascii.ascii) :
  filter isSep (filter (fun c => negb (Ascii.eqb c (chr 32))) l) = filter isSep l.
Proof.
  induction l as [|c l IH]; [reflexivity|]. simpl.
  destruct (Ascii.eqb c (chr 32)) eqn:E; simpl; [|rewrite IH; reflexivity].
  apply Ascii.eqb_eq in E. subst. exact IH.
Qed.

(** X1: [BBoxFromDatasec] reads back the 1-based FITS section [[x1:x2,y1:y2]]
    of every box whose corners are in order. *)
Theorem BBoxFromDatasec_fitsSection (b : Box) :
  minX b <= maxX b -> minY b <= maxY b -> BBoxFromDatasec (fitsSection b) = Ok b.
Proof.
  intros Hx Hy. unfold BBoxFromDatasec, fitsSection.
  rewrite list_ascii_of_string_of_list_ascii.
  destruct (showZ_tests (minX b + 1)) as [S1 P1].
  destruct (showZ_tests (maxX b + 1)) as [S2 P2].
  destruct (showZ_tests (minY b + 1)) as [S3 P3].
  destruct (showZ_tests (maxY b + 1)) as [S4 P4].
  rewrite filter_nospace
    by forall_chars.
  rewrite splitSep_cons_sep by reflexivity.
  rewrite (splitSep_app _ _ (chr 58)) by (auto || reflexivity).
  rewrite (splitSep_app _ _ (chr 44)) by (auto || reflexivity).
  rewrite (splitSep_app _ _ (chr 58)) by (auto || reflexivity).
  rewrite (splitSep_app _ _ (chr 93)) by (auto || reflexivity).
  cbn [splitSep]. rewrite !pyIntOfChars_showZ. cbn [bind].
  unfold box2I. rewrite !Z.add_simpl_r, Z.min_l, Z.min_l, Z.max_r, Z.max_r by lia.
  destruct b; reflexivity.
Qed.

Lemma BBoxFromDatasec_fitsSection_witness :
  BBoxFromDatasec (fitsSection (mkBox 0 0 9 19)) = Ok (mkBox 0 0 9 19).
Proof. apply BBoxFromDatasec_fitsSection; simpl; lia. Defined.

(** X2: a section with other than five separators ([[], [], [,], [:]])
    cannot be unpacked into six names: [ValueError]. *)
Theorem BBoxFromDatasec_field_count (s : string) :
  List.length (filter isSep (list_ascii_of_string s)) <> 5%nat ->
  BBoxFromDatasec s = Err ValueError.
Proof.
  intros H. unfold BBoxFromDatasec.
  set (l := filter (fun c => negb (Ascii.eqb c (chr 32))) (list_ascii_of_string s)).
  assert (Hl : List.length (splitSep l) <> 6%nat)
    by (unfold l; rewrite length_splitSep, filter_isSep_nospace; lia).
  destruct (splitSep l) as [|a [|b [|c [|d [|e [|f [|g r]]]]]]]; simpl in Hl;
    try reflexivity; lia.
Qed.

Lemma BBoxFromDatasec_field_count_witness :
  List.length (filter isSep (list_ascii_of_string "[1:10,1:20")) <> 5%nat /\
  BBoxFromDatasec "[1:10,1:20" = Err ValueError.
Proof. split; [discriminate|]. apply BBoxFromDatasec_field_count. discriminate. Defined.

(* ------------------------------------------------------------------ *)
(** ** [biasCorrection], [darkCorrection], [illuminationCorrection] (isr.py) *)

(** [mi -= rhs]: afw subtracts the image planes, ORs the masks and adds
    the variances, pairing pixels by their offset from each origin; images
    of different sizes are refused. *)
Definition minusMI (mi rhs : MaskedImage) : result MaskedImage :=
  let b := miBBox mi in
  let rb := miBBox rhs in
  if negb ((boxWidth b =? boxWidth rb) && (boxHeight b =? boxHeight rb))
  then Err LengthError
  else Ok {| miBBox := b;
             image := fun p =>
               if inBox b p then (image mi p - image rhs (pairedPix b rb p))%Q
               else image mi p;
             mask := fun p =>
               if inBox b p then Z.lor (mask mi p) (mask rhs (pairedPix b rb p))
               else mask mi p;
             variance := fun p =>
               if inBox b p then (variance mi p + variance rhs (pairedPix b rb p))%Q
               else variance mi p;
             maskPlanes := maskPlanes mi |}.

(** [mi.scaledMinus(c, rhs)]: [image -= c * rhs.image], the masks are
    OR-ed and [variance += c^2 * rhs.variance]. *)
Definition scaledMinus (c : Q) (mi rhs : MaskedImage) : result MaskedImage :=
  let b := miBBox mi in
  let rb := miBBox rhs in
  if negb ((boxWidth b =? boxWidth rb) && (boxHeight b =? boxHeight rb))
  then Err LengthError
  else Ok {| miBBox := b;
             image := fun p =>
               if inBox b p then (image mi p - c * image rhs (pairedPix b rb p))%Q
               else image mi p;
             mask := fun p =>
               if inBox b p then Z.lor (mask mi p) (mask rhs (pairedPix b rb p))
               else mask mi p;
             variance := fun p =>
               if inBox b p then (variance mi p + c * c * variance rhs (pairedPix b rb p))%Q
               else variance mi p;
             maskPlanes := maskPlanes mi |}.

Definition biasCorrection (exposure bias : Exposure) : result Exposure :=
  mi' <- minusMI (maskedImage exposure) (maskedImage bias) ;;
  Ok (mkExposure mi').

(** The scalings are floats (exposure times): [expscaling / darkscaling]
    raises [ZeroDivisionError] for a zero dark time. *)
Definition darkCorrection (exposure dark : Exposure) (expscaling darkscaling : Q)
    : result Exposure :=
  if Qeq_bool darkscaling 0 then Err ZeroDivisionError else
  let scale := (expscaling / darkscaling)%Q in
  mi' <- scaledMinus scale (maskedImage exposure) (maskedImage dark) ;;
  Ok (mkExposure mi').

Definition illuminationCorrection (exposure illum : Exposure) (illumscaling : Q)
    : result Exposure :=
  if Qeq_bool illumscaling 0 then Err ZeroDivisionError else
  mi' <- scaledDivides (1 / illumscaling) (maskedImage exposure) (maskedImage illum) ;;
  Ok (mkExposure mi').

(* ------------------------------------------------------------------ *)
(** ** [trimNew] (isr.py) *)

(** An [ExposureF] with the metadata [exposure.getMetadata()] returns. *)
Record MdExposure := mkMdExposure {
  mdMaskedImage : MaskedImage;
  mdMetadata : Provenance.PropertyList }.

(** [metadata.getString(k)]: a value of another type is refused. *)
Definition plGetString (pl : Provenance.PropertyList) (k : string) : result string :=
  match Provenance.plGet k pl with
  | Some (Provenance.MStr s) => Ok s
  | Some _ => Err TypeMismatchError
  | None => Err (NotFoundError k)
  end.

(** [metadata.remove(k)] *)
Definition plRemove (pl : Provenance.PropertyList) (k : string) : Provenance.PropertyList :=
  filter (fun kv => negb (String.eqb (fst kv) k)) pl.

(** [ExposureF(exposure, bbox, False)]: a view of the pixels of [bbox],
    which must lie inside the parent. *)
Definition subMaskedImage (mi : MaskedImage) (bbox : Box) : result MaskedImage :=
  if boxContains (miBBox mi) bbox
  then Ok {| miBBox := bbox; image := image mi; mask := mask mi;
             variance := variance mi; maskPlanes := maskPlanes mi |}
  else Err LengthError.

(** [mi.setXY0(p0)]: the same pixels, relabelled so that the box starts at [p0]. *)
Definition setXY0 (mi : MaskedImage) (p0 : pix) : MaskedImage :=
  let b := miBBox mi in
  let nb := mkBox (fst p0) (snd p0) (fst p0 + (maxX b - minX b))
                  (snd p0 + (maxY b - minY b)) in
  {| miBBox := nb;
     image := fun q => image mi (pairedPix nb b q);
     mask := fun q => mask mi (pairedPix nb b q);
     variance := fun q => variance mi (pairedPix nb b q);
     maskPlanes := maskPlanes mi |}.

(** The dimension check raises through [pexException], a name bound
    nowhere in isr.py (the module is imported as [pexExcept]). *)
Definition trimNew (exposure : MdExposure) (ampBBox : Box) (trimsec : option string)
    (trimsecKeyword : string) : result MdExposure :=
  let metadata := mdMetadata exposure in
  trimsec <- match Provenance.plGet trimsecKeyword metadata, trimsec with
             | Some _, None => s <- plGetString metadata trimsecKeyword ;; Ok (Some s)
             | _, _ => Ok trimsec
             end ;;
  match trimsec with
  | None => Err (LsstException "trimNew : cannot find trimsec")
  | Some ts =>
    trimsecBBox <- BBoxFromDatasec ts ;;
    if negb ((boxWidth trimsecBBox =? boxWidth ampBBox) &&
             (boxHeight trimsecBBox =? boxHeight ampBBox))
    then Err (NameError "pexException") else
    sub <- subMaskedImage (mdMaskedImage exposure) trimsecBBox ;;
    Ok (mkMdExposure (setXY0 sub (minX ampBBox, minY ampBBox))
                     (plRemove metadata trimsecKeyword))
  end.

(* ------------------------------------------------------------------ *)
(** ** [maskFromDefects] and [defectsFromBoolImage] (isr.py) *)

(** A [MaskU] on its own. *)
Record Mask := mkMask { maskBBox : Box; maskBits : pix -> Z; maskDict : MaskPlaneDict }.

(** [afwDetection.setMaskFromFootprintList(mask, fpList, bitmask)] *)
Definition setMaskFromFootprintList (m : pix -> Z) (fpList : list Footprint)
    (bitmask : Z) : pix -> Z :=
  fold_left (fun m fp => setMaskFromFootprint m fp bitmask) fpList m.

(** The box runs from [(0, 0)] to [dimensions], both corners included;
    a new mask carries afw's default planes. *)
Definition maskFromDefects (dimensions : Z * Z) (fpList : list Footprint) : result Mask :=
  let b := mkBox 0 0 (fst dimensions) (snd dimensions) in
  bitmask <- getPlaneBitMask defaultMaskPlanes "BAD" ;;
  Ok (mkMask b (setMaskFromFootprintList (fun _ => 0) fpList bitmask) defaultMaskPlanes).

(** The image read from [fitsfile] is passed as its box and pixels. *)
Definition defectsFromBoolImage (b : Box) (img : pix -> Q) (invert : bool) : list Footprint :=
  let image := if invert then (fun p => - img p)%Q else img in
  let thresh := if invert then (- (1 # 2))%Q else (1 # 2)%Q in
  makeFootprintSet image b thresh.

(* ------------------------------------------------------------------ *)
(** ** [maskBadPixelsDef] (isr.py) *)

(** The mask is edited before the assertion on [fwhm] is checked, so the
    exposure after the call is returned with the outcome. *)
Definition maskBadPixelsDef (exposure : Exposure) (defectList : list Defect)
    (fwhm : option Q) (interpolate : bool) (maskName : string)
    : Exposure * result (option InterpCall) :=
  let mi := maskedImage exposure in
  match getPlaneBitMask (maskPlanes mi) maskName with
  | Err x => (exposure, Err x)
  | Ok bitmask =>
    let m := fold_left (fun m defect => setMaskFromFootprint m (boxPixels defect) bitmask)
                       defectList (mask mi) in
    let exposure' := mkExposure (withMask mi m) in
    if interpolate then
      match fwhm with
      | Some f =>
        if Qle_bool f 0 then (exposure', Err (AssertionError "FWHM not provided for interpolation"))
        else (exposure', c <- interpolateDefectList exposure' defectList f None ;; Ok (Some c))
      | None => (exposure', Err (AssertionError "FWHM not provided for interpolation"))
      end
    else (exposure', Ok None)
  end.

(* ------------------------------------------------------------------ *)
(** ** [saturationCorrection] and [saturationInterpolation] (isr.py) *)



Definition saturationInterpolation (exposure : Exposure) (fwhm : Q)
    (growFootprints : Z) (maskName : string) : result InterpCall :=
  let mi := maskedImage exposure in
  bit <- getPlaneBitMask (maskPlanes mi) maskName ;;
  let maskimg := fun p => inject_Z (Z.land (mask mi p) bit) in
  let fpList := makeFootprintSet maskimg (miBBox mi) (1 # 2) in
  let satDefectList :=
    flat_map (fun fp =>
                let fpGrow := if 0 <? growFootprints
                              then growFootprint (miBBox mi) fp growFootprints
                              else fp in
                footprintToBBoxList fpGrow) fpList in
  let planes := if hasPlane (maskPlanes mi) "INTRP" then maskPlanes mi
                else addMaskPlane (maskPlanes mi) "INTRP" in
  let mi' := {| miBBox := miBBox mi; image := image mi; mask := mask mi;
                variance := variance mi; maskPlanes := planes |} in
  Ok (mkInterpCall mi' (createPsf fwhm) satDefectList None).


(** Two outcomes agree: both fail with the same exception, or both succeed
    with the same box and planes and equal pixel values. *)
Definition samePixels (a b : Exposure) : Prop :=
  miBBox (maskedImage a) = miBBox (maskedImage b) /\
  maskPlanes (maskedImage a) = maskPlanes (maskedImage b) /\
  forall p, (image (maskedImage a) p == image (maskedImage b) p)%Q /\
            mask (maskedImage a) p = mask (maskedImage b) p /\
            (variance (maskedImage a) p == variance (maskedImage b) p)%Q.

Definition sameOutcome (r1 r2 : result Exposure) : Prop :=
  match r1, r2 with
  | Ok a, Ok b => samePixels a b
  | Err x, Err y => x = y
  | _, _ => False
  end.

(** [satTest] with metadata holding a trim section and an exposure time. *)
Definition trimTest : MdExposure :=
  mkMdExposure (maskedImage satTest)
               [("trimsec", Provenance.MStr "[2:3,2:3]"); ("EXPTIME", Provenance.MInt 15)].


(* ------------------------------------------------------------------ *)
(** ** Properties of the corrections, trimming and masking *)

(** X6: [illuminationCorrection] computes exactly what [flatCorrection]
    computes with the scaling type 'USER' and the same scaling. *)
Theorem illuminationCorrection_is_user_flat (exposure illum : Exposure) (s : Q) :
  illuminationCorrection exposure illum s = flatCorrection exposure illum "USER" s.
Proof. reflexivity. Qed.

Lemma Qeq_bool_false (s : Q) : ~ s == 0 -> Qeq_bool s 0 = false.
Proof. intros H. apply not_true_iff_false. intros E. apply H, Qeq_bool_eq, E. Qed.

(** X7: a dark time of zero makes [darkCorrection] raise
    [ZeroDivisionError]; with equal non-zero exposure and dark times it
    gives the same pixels as [biasCorrection] with the dark frame. *)
Theorem darkCorrection_unit_scale (exposure dark : Exposure) (s x : Q) :
  ~ s == 0 ->
  darkCorrection exposure dark x 0 = Err ZeroDivisionError /\
  sameOutcome (darkCorrection exposure dark s s) (biasCorrection exposure dark).
Proof.
  intros Hs. split; [reflexivity|].
  unfold darkCorrection, biasCorrection. rewrite Qeq_bool_false by exact Hs.
  unfold scaledMinus, minusMI.
  destruct (negb _); unfold sameOutcome, samePixels; simpl; [reflexivity|].
  split; [reflexivity|]. split; [reflexivity|]. intros p.
  assert (H1 : s / s == 1) by (unfold Qdiv; apply Qmult_inv_r, Hs).
  destruct (inBox (miBBox (maskedImage exposure)) p); [|split; [reflexivity|split; reflexivity]].
  split; [|split; [reflexivity|]]; rewrite H1; ring.
Qed.

(** X3: without a [trimsec] argument, [trimNew] uses the string stored
    under the keyword; a missing keyword raises the LsstException
    'trimNew : cannot find trimsec', a non-string value a type error. *)
Theorem trimNew_metadata_trimsec (exposure : MdExposure) (ampBBox : Box) (key : string) :
  trimNew exposure ampBBox None key =
  match Provenance.plGet key (mdMetadata exposure) with
  | None => Err (LsstException "trimNew : cannot find trimsec")
  | Some (Provenance.MStr s) => trimNew exposure ampBBox (Some s) key
  | Some _ => Err TypeMismatchError
  end.
Proof.
  unfold trimNew, plGetString.
  destruct (Provenance.plGet key (mdMetadata exposure)) as [[s|z|]|] eqn:E; cbn; try reflexivity.
Qed.

(** X4: when the trim section and the amplifier box differ in size,
    [trimNew] raises [NameError] on the unbound [pexException]. *)
Theorem trimNew_dimension_mismatch (exposure : MdExposure) (ampBBox trimBBox : Box)
    (trimsec key : string) :
  BBoxFromDatasec trimsec = Ok trimBBox ->
  (boxWidth trimBBox <> boxWidth ampBBox \/ boxHeight trimBBox <> boxHeight ampBBox) ->
  trimNew exposure ampBBox (Some trimsec) key = Err (NameError "pexException").
Proof.
  intros Hb Hd. unfold trimNew.
  destruct (Provenance.plGet key (mdMetadata exposure)); cbn; rewrite Hb; cbn;
  (replace ((boxWidth trimBBox =? boxWidth ampBBox) && (boxHeight trimBBox =? boxHeight ampBBox))
     with false by (symmetry; apply andb_false_iff; destruct Hd as [H|H];
                    [left|right]; apply Z.eqb_neq, H)); reflexivity.
Qed.

Lemma plGet_plRemove (pl : Provenance.PropertyList) (k k' : string) :
  Provenance.plGet k' (plRemove pl k) = if String.eqb k k' then None else Provenance.plGet k' pl.
Proof.
  unfold plRemove.
  induction pl as [|[a v] pl IH]; cbn; [destruct (String.eqb k k'); reflexivity|].
  destruct (String.eqb a k) eqn:Eak; cbn.
  - apply String.eqb_eq in Eak. subst a. rewrite IH.
    destruct (String.eqb k k'); reflexivity.
  - rewrite IH. destruct (String.eqb a k') eqn:Eak'; [|reflexivity].
    apply String.eqb_eq in Eak'. subst a. rewrite String.eqb_sym, Eak. reflexivity.
Qed.

(** X5: for a trim section of the amplifier box's size, [trimNew] returns
    the trim-section pixels relabelled onto the amplifier box, with the
    keyword removed from the metadata and the other keys kept; a section
    outside the exposure raises [LengthError]. *)
Theorem trimNew_ok (exposure : MdExposure) (ampBBox trimBBox : Box) (trimsec key : string) :
  BBoxFromDatasec trimsec = Ok trimBBox ->
  boxWidth trimBBox = boxWidth ampBBox -> boxHeight trimBBox = boxHeight ampBBox ->
  let mi := mdMaskedImage exposure in
  if boxContains (miBBox mi) trimBBox then
    exists t, trimNew exposure ampBBox (Some trimsec) key = Ok t /\
      miBBox (mdMaskedImage t) = ampBBox /\
      maskPlanes (mdMaskedImage t) = maskPlanes mi /\
      (forall q, inBox ampBBox q = true ->
         inBox trimBBox (pairedPix ampBBox trimBBox q) = true /\
         image (mdMaskedImage t) q = image mi (pairedPix ampBBox trimBBox q) /\
         mask (mdMaskedImage t) q = mask mi (pairedPix ampBBox trimBBox q) /\
         variance (mdMaskedImage t) q = variance mi (pairedPix ampBBox trimBBox q)) /\
      Provenance.plGet key (mdMetadata t) = None /\
      (forall k, k <> key -> Provenance.plGet k (mdMetadata t) = Provenance.plGet k (mdMetadata exposure))
  else trimNew exposure ampBBox (Some trimsec) key = Err LengthError.
Proof.
  intros Hb Hw Hh mi.
  assert (Hamp : mkBox (minX ampBBox) (minY ampBBox)
                       (minX ampBBox + (maxX trimBBox - minX trimBBox))
                       (minY ampBBox + (maxY trimBBox - minY trimBBox)) = ampBBox).
  { unfold boxWidth, boxHeight in Hw, Hh. destruct ampBBox; cbn in *. f_equal; lia. }
  assert (Hpre : trimNew exposure ampBBox (Some trimsec) key =
                 (sub <- subMaskedImage mi trimBBox ;;
                  Ok (mkMdExposure (setXY0 sub (minX ampBBox, minY ampBBox))
                                   (plRemove (mdMetadata exposure) key)))).
  { unfold trimNew.
    destruct (Provenance.plGet key (mdMetadata exposure)); cbn; rewrite Hb; cbn;
      rewrite Hw, Hh, !Z.eqb_refl; reflexivity. }
  rewrite Hpre. unfold subMaskedImage.
  destruct (boxContains (miBBox mi) trimBBox); [|reflexivity].
  eexists. split; [reflexivity|]. unfold setXY0. cbn. rewrite Hamp.
  split; [reflexivity|]. split; [reflexivity|]. split.
  - intros [qx qy] Hq. repeat split; try reflexivity.
    unfold inBox, pairedPix in *; cbn in *. unfold boxWidth, boxHeight in Hw, Hh.
    rewrite !andb_true_iff, !Z.leb_le in *. lia.
  - rewrite plGet_plRemove, String.eqb_refl. split; [reflexivity|].
    intros k Hk. rewrite plGet_plRemove.
    destruct (String.eqb key k) eqn:E; [apply String.eqb_eq in E; congruence|reflexivity].
Qed.

Lemma trimNew_dimension_mismatch_witness :
  BBoxFromDatasec "[2:3,2:3]" = Ok (mkBox 1 1 2 2) /\
  trimNew trimTest (mkBox 0 0 2 2) (Some "[2:3,2:3]") "trimsec" = Err (NameError "pexException").
Proof.
  assert (H : BBoxFromDatasec "[2:3,2:3]" = Ok (mkBox 1 1 2 2)) by (vm_compute; reflexivity).
  split; [exact H|].
  apply (trimNew_dimension_mismatch trimTest (mkBox 0 0 2 2) (mkBox 1 1 2 2)
           "[2:3,2:3]" "trimsec" H).
  left. vm_compute. discriminate.
Defined.

Lemma trimNew_ok_witness :
  BBoxFromDatasec "[2:3,2:3]" = Ok (mkBox 1 1 2 2) /\
  exists t, trimNew trimTest (mkBox 100 200 101 201) (Some "[2:3,2:3]") "trimsec" = Ok t /\
    miBBox (mdMaskedImage t) = mkBox 100 200 101 201.
Proof.
  assert (H : BBoxFromDatasec "[2:3,2:3]" = Ok (mkBox 1 1 2 2)) by (vm_compute; reflexivity).
  split; [exact H|].
  pose proof (trimNew_ok trimTest (mkBox 100 200 101 201) (mkBox 1 1 2 2)
                "[2:3,2:3]" "trimsec" H eq_refl eq_refl) as Hok.
  cbn zeta in Hok. destruct (boxContains _ _) eqn:E in Hok; [|discriminate E].
  destruct Hok as (t & Ht & Hb & _). exists t. split; assumption.
Defined.
Lemma setMaskFromFootprintList_spec (fps : list Footprint) (m : pix -> Z) (bit : Z) (p : pix) :
  setMaskFromFootprintList m fps bit p =
  if existsb (fun fp => inFootprint fp p) fps then Z.lor (m p) bit else m p.
Proof.
  unfold setMaskFromFootprintList. revert m.
  induction fps as [|fp fps IH]; intros m; cbn; [reflexivity|].
  rewrite IH. unfold setMaskFromFootprint.
  destruct (inFootprint fp p), (existsb (fun fp0 => inFootprint fp0 p) fps); cbn;
    try reflexivity.
  rewrite <- Z.lor_assoc, Z.lor_diag. reflexivity.
Qed.

(** X9: [maskFromDefects] returns a mask over (0,0)..(d0,d1), corners
    included, whose value is the BAD bit (1) on footprint pixels and 0
    elsewhere. *)
Theorem maskFromDefects_bits (dimensions : Z * Z) (fpList : list Footprint) :
  exists m, maskFromDefects dimensions fpList = Ok m /\
    maskBBox m = mkBox 0 0 (fst dimensions) (snd dimensions) /\
    maskDict m = defaultMaskPlanes /\
    forall p, inBox (maskBBox m) p = true ->
      maskBits m p = if existsb (fun fp => inFootprint fp p) fpList then 1 else 0.
Proof.
  eexists. split; [reflexivity|]. cbn. split; [reflexivity|]. split; [reflexivity|].
  intros p _. rewrite setMaskFromFootprintList_spec.
  destruct (existsb _ _); reflexivity.
Qed.

(** X10: the footprints of [defectsFromBoolImage] cover exactly the
    pixels at or above 0.5, or at or below 0.5 when [invert] is set. *)
Theorem defectsFromBoolImage_pixels (b : Box) (img : pix -> Q) (invert : bool) (p : pix) :
  In p (List.concat (defectsFromBoolImage b img invert)) <->
  inBox b p = true /\ (if invert then img p <= 1 # 2 else 1 # 2 <= img p)%Q.
Proof.
  unfold defectsFromBoolImage. rewrite in_makeFootprintSet, Qle_bool_iff.
  destruct invert; [|reflexivity].
  split; intros [Hb Hq]; split; try exact Hb.
  - apply Qopp_le_compat in Hq. rewrite !Qopp_opp in Hq. exact Hq.
  - apply Qopp_le_compat in Hq. exact Hq.
Qed.

Lemma inFootprint_boxPixels (d : Box) (p : pix) : inFootprint (boxPixels d) p = inBox d p.
Proof.
  apply eq_iff_eq_true. rewrite inFootprint_In. apply in_boxPixels.
Qed.

Lemma fold_defect_mask (ds : list Defect) (m : pix -> Z) (bit : Z) (p : pix) :
  fold_left (fun m d => setMaskFromFootprint m (boxPixels d) bit) ds m p =
  if existsb (fun d => inBox d p) ds then Z.lor (m p) bit else m p.
Proof.
  pose proof (setMaskFromFootprintList_spec (map boxPixels ds) m bit p) as H.
  unfold setMaskFromFootprintList in H.
  assert (Hm : forall (l : list Defect) m0,
             fold_left (fun m fp => setMaskFromFootprint m fp bit) (map boxPixels l) m0 =
             fold_left (fun m d => setMaskFromFootprint m (boxPixels d) bit) l m0)
    by (induction l as [|d l IH]; intros m0; [reflexivity|apply IH]).
  rewrite <- Hm, H.
  replace (existsb (fun fp => inFootprint fp p) (map boxPixels ds))
    with (existsb (fun d => inBox d p) ds); [reflexivity|].
  clear H Hm. induction ds as [|d ds IHd]; [reflexivity|]. cbn.
  rewrite inFootprint_boxPixels, IHd. reflexivity.
Qed.

(** X11: [maskBadPixelsDef] ORs the plane's bit into every pixel of every
    defect box and leaves the rest unchanged, before it checks [fwhm]:
    the assertion fails (mask already edited) when interpolation is asked
    for without a positive [fwhm]. *)
Theorem maskBadPixelsDef_marks (exposure : Exposure) (defectList : list Defect)
    (fwhm : option Q) (interpolate : bool) (maskName : string) (i : nat) :
  lookupPlane maskName (maskPlanes (maskedImage exposure)) = Some i ->
  let '(e', outcome) := maskBadPixelsDef exposure defectList fwhm interpolate maskName in
  let mi := maskedImage exposure in
  miBBox (maskedImage e') = miBBox mi /\ image (maskedImage e') = image mi /\
  variance (maskedImage e') = variance mi /\ maskPlanes (maskedImage e') = maskPlanes mi /\
  (forall p, mask (maskedImage e') p =
     if existsb (fun d => inBox d p) defectList
     then Z.lor (mask mi p) (2 ^ Z.of_nat i) else mask mi p) /\
  (interpolate = false -> outcome = Ok None) /\
  (interpolate = true -> (forall f, fwhm = Some f -> f <= 0)%Q ->
     outcome = Err (AssertionError "FWHM not provided for interpolation")) /\
  (interpolate = true -> forall f, fwhm = Some f -> (0 < f)%Q ->
     outcome = (c <- interpolateDefectList e' defectList f None ;; Ok (Some c))).
Proof.
  intros Hl. unfold maskBadPixelsDef, getPlaneBitMask. rewrite Hl.
  destruct interpolate; [destruct fwhm as [f|]; [destruct (Qle_bool f 0) eqn:Ef|]|]; cbn;
    repeat split; try reflexivity; try (intros p; apply fold_defect_mask);
    try (intros H; discriminate H); try (intros _ _; reflexivity).
  - intros _ f' Hf' Hlt. injection Hf' as <-. apply Qle_bool_iff in Ef.
    exfalso. apply (Qlt_not_le _ _ Hlt Ef).
  - intros _ H. exfalso. apply not_true_iff_false in Ef. apply Ef, Qle_bool_iff, H. reflexivity.
  - intros _ f' Hf' _. injection Hf' as <-. reflexivity.
  - intros _ f' Hf'. discriminate Hf'.
Qed.









(** X13: [saturationInterpolation] interpolates, without fallback, over
    exactly the defects [defectListFromMask] returns for the same plane
    and growth. *)
Theorem saturationInterpolation_defectListFromMask (exposure : Exposure) (fwhm : Q)
    (growFootprints : Z) (maskName : string) :
  saturationInterpolation exposure fwhm growFootprints maskName =
  (r <- defectListFromMask exposure growFootprints maskName ;;
   Ok (mkInterpCall (maskedImage (fst r)) (createPsf fwhm) (snd r) None)).
Proof.
  unfold saturationInterpolation, defectListFromMask.
  destruct (getPlaneBitMask _ maskName); reflexivity.
Qed.

Lemma maskBadPixelsDef_marks_witness :
  lookupPlane "BAD" (maskPlanes (maskedImage satTest)) = Some 0%nat /\
  mask (maskedImage (fst (maskBadPixelsDef satTest [mkBox 0 0 1 1] None true "BAD"))) (0, 0) = 1 /\
  snd (maskBadPixelsDef satTest [mkBox 0 0 1 1] None true "BAD") =
    Err (AssertionError "FWHM not provided for interpolation").
Proof.
  assert (Hl : lookupPlane "BAD" (maskPlanes (maskedImage satTest)) = Some 0%nat) by reflexivity.
  split; [exact Hl|].
  pose proof (maskBadPixelsDef_marks satTest [mkBox 0 0 1 1] None true "BAD" 0 Hl) as H.
  destruct (maskBadPixelsDef satTest [mkBox 0 0 1 1] None true "BAD") as [e' out].
  destruct H as (_ & _ & _ & _ & Hm & _ & Ha & _). cbn.
  split; [rewrite Hm; reflexivity|].
  apply Ha; [reflexivity|]. intros f Hf. discriminate Hf.
Defined.
Lemma darkCorrection_unit_scale_witness :
  ~ (2 == 0)%Q /\
  darkCorrection satTest satTest 5 0 = Err ZeroDivisionError /\
  sameOutcome (darkCorrection satTest satTest 2 2) (biasCorrection satTest satTest).
Proof.
  assert (H : ~ (2 == 0)%Q) by discriminate.
  split; [exact H|]. exact (darkCorrection_unit_scale satTest satTest 2 5 H).
Defined.


Module ProvenanceExtras.
Import Provenance.

(** [self.dimensions.add(key)] on the set of dimensions. *)
Definition addDimension (dims : list string) (key : string) : list string :=
  if existsb (String.eqb key) dims then dims else app dims [key].

(** [IsrProvenance.fromDataIds] *)
Definition fromDataIds (c : IsrProvenance) (dataIds : list DataId) : IsrProvenance :=
  fold_left (fun c dataId =>
               {| detectorName := detectorName c; detectorSerial := detectorSerial c;
                  detectorId := detectorId c; metadata := metadata c;
                  instrument := instrument c; calibType := calibType c;
                  dimensions := fold_left addDimension (map fst dataId) (dimensions c);
                  dataIdList := app (dataIdList c) [dataId] |})
            dataIds c.

(** The value [pl.update(d)] leaves for [k]: the last one [d] gives. *)
Definition lastGet (k : string) (d : PropertyList) : option MdValue :=
  fold_left (fun acc kv => if String.eqb (fst kv) k then Some (snd kv) else acc) d None.

Lemma in_addDimension (dims : list string) (key x : string) :
  In x (addDimension dims key) <-> In x dims \/ x = key.
Proof.
  unfold addDimension. destruct (existsb (String.eqb key) dims) eqn:E.
  - apply existsb_exists in E as (y & Hy & Hk). apply String.eqb_eq in Hk. subst y.
    split; [auto|intros [H| ->]; auto].
  - rewrite in_app_iff. cbn. split; intros [H|H]; auto; destruct H as [H|[]]; auto.
Qed.

Lemma NoDup_addDimension (dims : list string) (key : string) :
  NoDup dims -> NoDup (addDimension dims key).
Proof.
  intros Hnd. unfold addDimension. destruct (existsb (String.eqb key) dims) eqn:E; [exact Hnd|].
  apply NoDup_app; [exact Hnd|repeat constructor; intros []|].
  intros x Hx [<-|[]]. apply not_true_iff_false in E. apply E, existsb_exists.
  exists key. split; [exact Hx|apply String.eqb_refl].
Qed.

Lemma fold_addDimension (keys dims : list string) :
  (forall x, In x (fold_left addDimension keys dims) <-> In x dims \/ In x keys) /\
  (NoDup dims -> NoDup (fold_left addDimension keys dims)).
Proof.
  revert dims. induction keys as [|k keys IH]; intros dims; cbn.
  - split; [intros x; split; [auto|intros [H|[]]; exact H]|auto].
  - destruct (IH (addDimension dims k)) as [Hin Hnd]. split.
    + intros x. rewrite Hin, in_addDimension. split; intros H; intuition.
    + intros Hd. apply Hnd, NoDup_addDimension, Hd.
Qed.

(** X15: [fromDataIds] adds every key of every data id to the dimensions
    (keeping them free of duplicates) and appends the data ids in order;
    the other attributes are untouched. *)
Theorem fromDataIds_collects (c : IsrProvenance) (dataIds : list DataId) :
  let c' := fromDataIds c dataIds in
  (NoDup (dimensions c) -> NoDup (dimensions c')) /\
  (forall k, In k (dimensions c') <->
             In k (dimensions c) \/ exists d, In d dataIds /\ In k (map fst d)) /\
  dataIdList c' = app (dataIdList c) dataIds /\
  metadata c' = metadata c /\ detectorName c' = detectorName c /\
  detectorSerial c' = detectorSerial c /\ instrument c' = instrument c /\
  calibType c' = calibType c.
Proof.
  cbv zeta. unfold fromDataIds. revert c. induction dataIds as [|d ds IH]; intros c; cbn.
  - repeat split; auto; [intros [H|(d & [] & _)]; exact H|symmetry; apply app_nil_r].
  - destruct (IH {| detectorName := detectorName c; detectorSerial := detectorSerial c;
                    detectorId := detectorId c; metadata := metadata c;
                    instrument := instrument c; calibType := calibType c;
                    dimensions := fold_left addDimension (map fst d) (dimensions c);
                    dataIdList := app (dataIdList c) [d] |})
      as (Hnd & Hin & Hids & Hmd & Hdn & Hds & Hi & Hc).
    cbn in *. destruct (fold_addDimension (map fst d) (dimensions c)) as [Hin0 Hnd0].
    split; [auto|]. split; [|split; [etransitivity; [exact Hids|rewrite <- app_assoc; reflexivity]|auto]].
    intros k. rewrite Hin, Hin0. split.
    + intros [[Hk|Hk]|(d' & Hd' & Hk)]; [left; exact Hk|right; exists d; auto|].
      right. exists d'. auto.
    + intros [Hk|(d' & [<-|Hd'] & Hk)]; [left; left; exact Hk|left; right; exact Hk|].
      right. exists d'. auto.
Qed.

Lemma plGet_plSet (pl : PropertyList) (k k' : string) (v : MdValue) :
  plGet k (plSet pl k' v) = if String.eqb k' k then Some v else plGet k pl.
Proof.
  induction pl as [|[a w] pl IH]; cbn; [destruct (String.eqb k' k); reflexivity|].
  destruct (String.eqb a k') eqn:Eak'; cbn.
  - apply String.eqb_eq in Eak'. subst a. destruct (String.eqb k' k); reflexivity.
  - rewrite IH. destruct (String.eqb a k) eqn:Eak; [|reflexivity].
    apply String.eqb_eq in Eak. subst a. rewrite String.eqb_sym, Eak'. reflexivity.
Qed.

Lemma lastGet_acc (k : string) (d : PropertyList) (acc : option MdValue) :
  fold_left (fun acc kv => if String.eqb (fst kv) k then Some (snd kv) else acc) d acc =
  match lastGet k d with Some v => Some v | None => acc end.
Proof.
  unfold lastGet. revert acc. induction d as [|[a w] d IH]; intros acc; cbn; [reflexivity|].
  rewrite (IH (if String.eqb a k then Some w else acc)),
          (IH (if String.eqb a k then Some w else None)).
  destruct (fold_left _ d None); [reflexivity|]. destruct (String.eqb a k); reflexivity.
Qed.

Lemma lastGet_cons (k a : string) (w : MdValue) (d : PropertyList) :
  lastGet k ((a, w) :: d) =
  match lastGet k d with Some v => Some v | None => if String.eqb a k then Some w else None end.
Proof. unfold lastGet at 1. cbn. apply lastGet_acc. Qed.

Lemma plGet_plUpdate (pl d : PropertyList) (k : string) :
  plGet k (plUpdate pl d) = match lastGet k d with Some v => Some v | None => plGet k pl end.
Proof.
  unfold plUpdate. revert pl. induction d as [|[a w] d IH]; intros pl; [reflexivity|].
  cbn [fold_left fst snd]. rewrite IH, plGet_plSet, lastGet_cons.
  destruct (lastGet k d); [reflexivity|]. destruct (String.eqb a k); reflexivity.
Qed.

Lemma plGet_None (pl : PropertyList) (k : string) :
  plGet k pl = None <-> ~ In k (plNames pl).
Proof.
  induction pl as [|[a w] pl IH]; cbn; [split; auto|].
  destruct (String.eqb a k) eqn:E.
  - apply String.eqb_eq in E. subst a. split; [discriminate|intros H; exfalso; auto].
  - apply String.eqb_neq in E. rewrite IH. split; intros H; [intros [H'|H']; auto|auto].
Qed.

Lemma lastGet_plGet (d : PropertyList) (k : string) :
  NoDup (plNames d) -> lastGet k d = plGet k d.
Proof.
  induction d as [|[a w] d IH]; intros Hnd; [reflexivity|].
  inversion Hnd as [|? ? Ha Hnd']; subst. rewrite lastGet_cons, IH by exact Hnd'. cbn.
  destruct (String.eqb a k) eqn:E.
  - apply String.eqb_eq in E. subst a. apply plGet_None in Ha. rewrite Ha. reflexivity.
  - destruct (plGet k d); reflexivity.
Qed.

Lemma in_names_plSet (pl : PropertyList) (k x : string) (v : MdValue) :
  In x (plNames (plSet pl k v)) <-> In x (plNames pl) \/ x = k.
Proof.
  induction pl as [|[a w] pl IH]; cbn; [split; intros [H|H]; auto; destruct H|].
  destruct (String.eqb a k) eqn:E; cbn.
  - apply String.eqb_eq in E. subst a. split; [tauto|intros [[H|H]|H]; auto].
  - rewrite IH. tauto.
Qed.

Lemma NoDup_plSet (pl : PropertyList) (k : string) (v : MdValue) :
  NoDup (plNames pl) -> NoDup (plNames (plSet pl k v)).
Proof.
  induction pl as [|[a w] pl IH]; intros Hnd; cbn; [repeat constructor; intros []|].
  inversion Hnd as [|? ? Ha Hnd']; subst.
  destruct (String.eqb a k) eqn:E; cbn; [exact Hnd|].
  constructor; [|apply IH, Hnd'].
  rewrite in_names_plSet. apply String.eqb_neq in E. intros [H|H]; auto.
Qed.


Lemma NoDup_plUpdate (pl d : PropertyList) :
  NoDup (plNames pl) -> NoDup (plNames (plUpdate pl d)).
Proof.
  unfold plUpdate. revert pl. induction d as [|[a w] d IH]; intros pl Hnd; cbn; [exact Hnd|].
  apply IH, NoDup_plSet, Hnd.
Qed.

(** The dates [updateMetadata(setDate=True)] writes. *)
Definition calibDates (now : Now) : PropertyList :=
  [("CALIBDATE", MStr (nowIso now));
   ("CALIB_CREATION_DATE", MStr (nowDateIso now));
   ("CALIB_CREATION_TIME", MStr (nowTimeIso now))].

Lemma plGet_updateMetadata (c : IsrProvenance) (setDate : bool) (now : Now)
    (kwargs : PropertyList) (k : string) :
  NoDup (plNames kwargs) ->
  plGet k (metadata (updateMetadata c setDate now kwargs)) =
  if String.eqb k "calibType" then Some (calibType c)
  else if String.eqb k "INSTRUME" then Some (instrument c)
  else if String.eqb k "DETECTOR_SERIAL" then Some (detectorSerial c)
  else if String.eqb k "DETECTOR" then Some (detectorName c)
  else match plGet k kwargs with
       | Some v => Some v
       | None => match (if setDate then plGet k (calibDates now) else None) with
                 | Some v => Some v
                 | None => plGet k (metadata c)
                 end
       end.
Proof.
  intros Hnd. unfold updateMetadata, baseUpdateMetadata. cbn [metadata withMetadata].
  set (kw := plSet (plSet (plSet (plSet kwargs "DETECTOR" (detectorName c))
               "DETECTOR_SERIAL" (detectorSerial c)) "INSTRUME" (instrument c))
               "calibType" (calibType c)).
  set (sup0 := if setDate then calibDates now else []).
  assert (Hkw : NoDup (plNames kw)) by (unfold kw; repeat apply NoDup_plSet; exact Hnd).
  assert (Hsup : NoDup (plNames (plUpdate sup0 kw))).
  { apply NoDup_plUpdate. unfold sup0. destruct setDate; cbn; [|constructor].
    repeat constructor; cbn; intuition discriminate. }
  replace (if setDate then _ else []) with sup0 by reflexivity.
  rewrite plGet_plUpdate, lastGet_plGet by exact Hsup.
  rewrite plGet_plUpdate, lastGet_plGet by exact Hkw.
  unfold kw. rewrite !plGet_plSet.
  rewrite !(String.eqb_sym _ k).
  destruct (String.eqb k "calibType"); [reflexivity|].
  destruct (String.eqb k "INSTRUME"); [reflexivity|].
  destruct (String.eqb k "DETECTOR_SERIAL") eqn:E1; [reflexivity|].
  destruct (String.eqb k "DETECTOR") eqn:E2; [reflexivity|].
  destruct (plGet k kwargs); [reflexivity|].
  unfold sup0. destruct setDate; cbn [plGet]; [|reflexivity].
  unfold calibDates. destruct (plGet k _); reflexivity.
Qed.









(** X16: after [IsrProvenance.updateMetadata], DETECTOR, DETECTOR_SERIAL,
    INSTRUME and calibType hold the object's attributes, other keyword
    arguments override the dates, which override the previous metadata. *)
Theorem updateMetadata_keys (c : IsrProvenance) (setDate : bool) (now : Now)
    (kwargs : PropertyList) (k : string) :
  NoDup (plNames kwargs) ->
  plGet k (metadata (updateMetadata c setDate now kwargs)) =
  if String.eqb k "calibType" then Some (calibType c)
  else if String.eqb k "INSTRUME" then Some (instrument c)
  else if String.eqb k "DETECTOR_SERIAL" then Some (detectorSerial c)
  else if String.eqb k "DETECTOR" then Some (detectorName c)
  else match plGet k kwargs with
       | Some v => Some v
       | None => match (if setDate then plGet k (calibDates now) else None) with
                 | Some v => Some v
                 | None => plGet k (metadata c)
                 end
       end.
Proof. apply plGet_updateMetadata. Qed.

Definition nowTest : Now := mkNow "2020-01-01T00:00:00" "2020-01-01" "00:00:00".

Lemma updateMetadata_keys_witness :
  NoDup (plNames [("DETECTOR", MInt 7); ("EXPTIME", MInt 15)]) /\
  plGet "DETECTOR" (metadata (updateMetadata (newProvenance nowTest) true nowTest
                                [("DETECTOR", MInt 7); ("EXPTIME", MInt 15)])) = Some MNone.
Proof.
  assert (H : NoDup (plNames [("DETECTOR", MInt 7); ("EXPTIME", MInt 15)])).
  { cbn. constructor; [cbn; intuition discriminate|]. constructor; [intros []|constructor]. }
  split; [exact H|].
  rewrite (updateMetadata_keys (newProvenance nowTest) true nowTest _ "DETECTOR" H).
  reflexivity.
Defined.

End ProvenanceExtras.
